(** * mdns: the query / dispatch / record-assembly engine of [mdns.go]

    A shallow embedding of [query] (mdns.go, lines 41-146) and of the Go
    library functions it calls on strings, followed by the properties of
    the engine.

    Go strings are byte sequences: they are modelled by [string], whose
    characters are the 256 values of [ascii]. *)

From Stdlib Require Import String Ascii List NArith Lia Bool DecimalString.
From stdpp Require Import base decidable list gmap strings.

Import ListNotations.
Local Open Scope string_scope.
#[local] Arguments String.append !s1 s2.
#[local] Set Warnings "-clear-no-such-hyp".
Local Open Scope list_scope.

(** ** The functions of Go's [strings] package used by [query] *)

Module strings.

(** [strings.HasSuffix]:
    [len(s) >= len(suffix) && s[len(s)-len(suffix):] == suffix]. *)
Definition HasSuffix (s suffix : string) : bool :=
  (String.length suffix <=? String.length s)%nat &&
  String.eqb
    (substring (String.length s - String.length suffix)
               (String.length suffix) s)
    suffix.

(** [strings.TrimSuffix]: [s[:len(s)-len(suffix)]] when [s] ends with
    [suffix], [s] itself otherwise. *)
Definition TrimSuffix (s suffix : string) : string :=
  if HasSuffix s suffix
  then substring 0 (String.length s - String.length suffix) s
  else s.

(** Membership of a byte in a cutset. *)
Fixpoint in_cutset (c : ascii) (cutset : string) : bool :=
  match cutset with
  | EmptyString => false
  | String d cutset' => Ascii.eqb c d || in_cutset c cutset'
  end.

(** [strings.TrimLeft] for a cutset of ASCII bytes: drop the leading
    bytes that belong to the cutset. *)
Fixpoint TrimLeft (s cutset : string) : string :=
  match s with
  | EmptyString => EmptyString
  | String c s' => if in_cutset c cutset then TrimLeft s' cutset else s
  end.

(** [strings.TrimRight] for a cutset of ASCII bytes: drop the trailing
    bytes that belong to the cutset. *)
Fixpoint TrimRight (s cutset : string) : string :=
  match s with
  | EmptyString => EmptyString
  | String c s' =>
      match TrimRight s' cutset with
      | EmptyString => if in_cutset c cutset then EmptyString
                       else String c EmptyString
      | r => String c r
      end
  end.

(** [strings.Trim]: both call sites pass a one-byte ASCII cutset, for
    which Go computes [trimLeftByte(trimRightByte(s, c), c)]; the same
    byte-wise trimming is what it does for every ASCII cutset. *)
Definition Trim (s cutset : string) : string :=
  TrimLeft (TrimRight s cutset) cutset.

(** [strings.HasPrefix]. *)
Fixpoint HasPrefix (s prefix : string) {struct prefix} : bool :=
  match prefix, s with
  | EmptyString, _ => true
  | String _ _, EmptyString => false
  | String p prefix', String c s' => Ascii.eqb c p && HasPrefix s' prefix'
  end.

(** The scan of [strings.Split] for a non-empty separator: [cur] is the
    component read so far, [skip] the number of bytes of a separator
    occurrence that are still to be passed over.  Occurrences are taken
    leftmost first and do not overlap, as with [strings.Index] in
    [genSplit]. *)
Fixpoint split_scan (sep : string) (skip : nat) (cur s : string)
  : list string :=
  match s with
  | EmptyString => [cur]
  | String c s' =>
      match skip with
      | S k => split_scan sep k cur s'
      | O =>
          if HasPrefix s sep
          then cur :: split_scan sep (String.length sep - 1) EmptyString s'
          else split_scan sep 0 (cur ++ String c EmptyString) s'
      end
  end.

(** [strings.Split(s, sep)] for a non-empty [sep]: the components of [s]
    between the occurrences of [sep], one more than there are
    occurrences.  (For the empty separator Go explodes [s] into UTF-8
    sequences; here it is exploded into bytes.  [query] only splits on
    ["."].) *)
Definition Split (s sep : string) : list string :=
  match sep with
  | EmptyString =>
      map (fun c => String c EmptyString) (list_ascii_of_string s)
  | _ => split_scan sep 0 EmptyString s
  end.

End strings.

(** [s] does not contain the byte [c]. *)
Fixpoint free_of (c : ascii) (s : string) : bool :=
  match s with
  | EmptyString => true
  | String d s' => negb (Ascii.eqb d c) && free_of c s'
  end.

(** [strings.Join]. *)
Fixpoint Join (parts : list string) (sep : string) : string :=
  match parts with
  | [] => ""
  | [p] => p
  | p :: rest => p ++ sep ++ Join rest sep
  end.

(** ** The messages of the DNS library, as far as [query] reads them *)

Module dns.

(** [dns.RR_Header]; [query] reads [Name] only. *)
Record RR_Header := {
  Name : string;
  Rrtype : N;
  Class : N;
  Ttl : N
}.

(** [net.IP] is a byte slice. *)
Definition IP : Type := list Byte.byte.

(** The resource records, one constructor per dynamic type the type
    switches of [query] distinguish; [OtherRR] stands for every record
    type that matches no case. *)
Inductive RR :=
| PTR (Hdr : RR_Header) (Ptr : string)
| SRV (Hdr : RR_Header) (Priority Weight Port : N) (Target : string)
| A (Hdr : RR_Header) (A : IP)
| AAAA (Hdr : RR_Header) (AAAA : IP)
| TXT (Hdr : RR_Header) (Txt : list string)
| OtherRR (Hdr : RR_Header).

(** [dns.Question] (its field [Name] is [Qname] here, [Name] being the
    header's). *)
Record Question := {
  Qname : string;
  Qtype : N;
  Qclass : N
}.

(** [dns.Msg]: the identifier of [MsgHdr] and the sections [query]
    builds or reads. *)
Record Msg := {
  Id : N;
  Questions : list Question;
  Answer : list RR;
  Extra : list RR
}.

Definition TypePTR : N := 12.
Definition ClassINET : N := 1.

End dns.
Import dns.

(** ** Errors, results and the state [query] acts on *)

(** A Go [error]: its message, and whether [errors.Is(err, net.ErrClosed)]
    holds of it. *)
Record error := {
  Error : string;
  Is_ErrClosed : bool
}.

Inductive result (T : Type) :=
| Ok (v : T)
| Err (e : error).
Arguments Ok {T} v.
Arguments Err {T} e.

(** A datagram handed to [conn.WriteTo]: the bytes and the destination,
    together with the message the bytes were packed from. *)
Record packet := {
  pkt_msg : Msg;
  pkt_bytes : list Byte.byte;
  pkt_dest : string
}.

(** What one call of [conn.ReadFrom] gives back: a datagram and the
    address of its sender, or an error. *)
Inductive recv :=
| Datagram (buf : list Byte.byte) (addr : string)
| RecvErr (err : error).

(** The state [query] reads and writes: its local map [services], the
    datagrams written to the connection, the lines printed on standard
    output, the lines given to the logger, and the number of identifiers
    drawn from [dns.Id]. *)
Record State := {
  services : gset string;
  sent : list packet;
  stdout : list string;
  logged : list string;
  ids_drawn : nat
}.

Definition init_State : State :=
  {| services := ∅; sent := []; stdout := []; logged := []; ids_drawn := 0 |}.

(** Code that reads and writes the state and may return an error.  The
    state reached is kept when an error is returned. *)
Definition M (T : Type) : Type := State -> result T * State.

Definition ret {T} (v : T) : M T := fun st => (Ok v, st).

Definition fail {T} (e : error) : M T := fun st => (Err e, st).

Definition bind {T U} (m : M T) (k : T -> M U) : M U :=
  fun st =>
    match m st with
    | (Ok v, st') => k v st'
    | (Err e, st') => (Err e, st')
    end.

Notation "'let*' x ':=' m 'in' k" := (bind m (fun x => k))
  (at level 10, x name, m at level 100, k at level 200, only parsing).
Notation "'exec' m 'in' k" := (bind m (fun _ => k))
  (at level 10, m at level 100, k at level 200, only parsing).

(** How the loop of [query] stands after the datagrams it was given:
    it has returned [nil], or it is blocked in [conn.ReadFrom]. *)
Inductive status :=
| Returned_nil
| Waiting.

(** What one iteration of the loop does next. *)
Inductive control :=
| Continue
| Return_nil.

Definition tab : string := String "009"%char EmptyString.
Definition newline : string := String "010"%char EmptyString.

(** [fmt.Sprintf("%d", n)] for an unsigned [n]. *)
Definition itoa (n : N) : string := NilZero.string_of_uint (N.to_uint n).


(** ** [query] *)

Definition mdnsAddr4 : string := "224.0.0.251:5353".

(** The accumulator of the record assembler: the variables [name],
    [host], [service], [proto] and [addrs] declared at lines 118-124. *)
Record Acc := {
  name : string;
  host : string;
  service : string;
  proto : string;
  addrs : list string
}.

(** Their zero values. *)
Definition zero_Acc : Acc :=
  {| name := ""; host := ""; service := ""; proto := ""; addrs := [] |}.

(** [fmt.Sprintf("%s\t%s\t%s\t%s\n", proto, service, host, name)]. *)
Definition format_line (proto service host name : string) : string :=
  (proto ++ tab ++ service ++ tab ++ host ++ tab ++ name ++ newline)%string.

Section Engine.

(** The collaborators of [query], which it calls and does not
    implement: the codec of the DNS library, the textual form of an IP
    address, the identifiers [dns.Id] draws (the [k]-th call returns
    [Id_draw k]), the error of [net.ListenPacket] if it fails, and the
    outcome of the [k]-th write to the connection. *)
Variable Pack : Msg -> result (list Byte.byte).
Variable Unpack : list Byte.byte -> result Msg.
Variable IP_String : IP -> string.
Variable Id_draw : nat -> N.
Variable ListenPacket_err : option error.
Variable WriteTo_err : nat -> list Byte.byte -> option error.

(** [dns.Id()]. *)
Definition dns_Id : M N :=
  fun st =>
    (Ok (Id_draw (ids_drawn st)),
     {| services := services st; sent := sent st; stdout := stdout st;
        logged := logged st; ids_drawn := S (ids_drawn st) |}).

(** [m.Pack()]. *)
Definition Msg_Pack (m : Msg) : M (list Byte.byte) :=
  fun st => (Pack m, st).

(** [conn.WriteTo(buf, addr)], [buf] being the packed form of [m]. *)
Definition conn_WriteTo (m : Msg) (buf : list Byte.byte) (addr : string)
  : M unit :=
  fun st =>
    match WriteTo_err (length (sent st)) buf with
    | Some err => (Err err, st)
    | None =>
        (Ok tt,
         {| services := services st;
            sent := sent st ++
                    [{| pkt_msg := m; pkt_bytes := buf; pkt_dest := addr |}];
            stdout := stdout st; logged := logged st;
            ids_drawn := ids_drawn st |})
    end.

(** [fmt.Printf]: one more line on standard output. *)
Definition fmt_Printf (line : string) : M unit :=
  fun st =>
    (Ok tt,
     {| services := services st; sent := sent st;
        stdout := stdout st ++ [line]; logged := logged st;
        ids_drawn := ids_drawn st |}).

(** [log.Printf]: one more line for the logger. *)
Definition log_Printf (line : string) : M unit :=
  fun st =>
    (Ok tt,
     {| services := services st; sent := sent st; stdout := stdout st;
        logged := logged st ++ [line]; ids_drawn := ids_drawn st |}).

(** [_, ok := services[key]]. *)
Definition services_lookup (key : string) : M bool :=
  fun st => (Ok (bool_decide (key ∈ services st)), st).

(** [services[key] = struct{}{}]. *)
Definition services_store (key : string) : M unit :=
  fun st =>
    (Ok tt,
     {| services := {[ key ]} ∪ services st; sent := sent st;
        stdout := stdout st; logged := logged st;
        ids_drawn := ids_drawn st |}).

(** [services := map[string]struct{}{}]. *)
Definition services_make : M unit :=
  fun st =>
    (Ok tt,
     {| services := ∅; sent := sent st; stdout := stdout st;
        logged := logged st; ids_drawn := ids_drawn st |}).

(** The message built at lines 52-59 and again at lines 97-104: one
    question of type PTR for [qname], with the bit of the class that
    asks for a unicast response. *)
Definition question_Msg (id : N) (qname : string) : Msg :=
  {| Id := id;
     Questions := [ {| Qname := qname;
                       Qtype := TypePTR;
                       Qclass := N.lor ClassINET (N.shiftl 1 15) |} ];
     Answer := [];
     Extra := [] |}.

(** Lines 88-114: the loop over [msg.Answer] for an answer to the
    initial services query. *)
Fixpoint range_Answer (answers : list RR) : M unit :=
  match answers with
  | [] => ret tt
  | a :: rest =>
      match a with
      | PTR _ ptr =>
          let* ok := services_lookup ptr in
          if ok then
            (* we've already queried this service *)
            range_Answer rest
          else
            exec services_store ptr in
            let* id := dns_Id in
            let m := question_Msg id ptr in
            let* buf := Msg_Pack m in
            exec conn_WriteTo m buf mdnsAddr4 in
            range_Answer rest
      | _ => range_Answer rest
      end
  end.

(** Lines 127-142: the type switch of the record assembler on one
    record. *)
Definition assemble_RR (acc : Acc) (a : RR) : Acc :=
  match a with
  | PTR hdr ptr =>
      let name' := strings.TrimSuffix ptr ("." ++ Name hdr) in
      let svcParts := strings.Split (strings.Trim (Name hdr) ".") "." in
      if (length svcParts =? 3)%nat &&
         String.eqb (nth 2 svcParts "") "local"
      then
        {| name := name'; host := host acc;
           service := strings.Trim (nth 0 svcParts "") "_";
           proto := strings.Trim (nth 1 svcParts "") "_";
           addrs := addrs acc |}
      else
        {| name := name'; host := host acc; service := service acc;
           proto := proto acc; addrs := addrs acc |}
  | SRV _ _ _ port target =>
      {| name := name acc;
         host := strings.TrimSuffix target "." ++ ":" ++ itoa port;
         service := service acc; proto := proto acc; addrs := addrs acc |}
  | A _ ip =>
      {| name := name acc; host := host acc; service := service acc;
         proto := proto acc; addrs := addrs acc ++ [IP_String ip] |}
  | AAAA _ ip =>
      {| name := name acc; host := host acc; service := service acc;
         proto := proto acc; addrs := addrs acc ++ [IP_String ip] |}
  | TXT _ _ => acc
  | OtherRR _ => acc
  end.

(** Lines 118-143: the accumulator after the loop over
    [append(msg.Answer, msg.Extra...)]. *)
Definition assemble (msg : Msg) : Acc :=
  fold_left assemble_RR (Answer msg ++ Extra msg) zero_Acc.

(** Lines 118-144: assemble the records and print the line. *)
Definition print_service (msg : Msg) : M unit :=
  let acc := assemble msg in
  fmt_Printf (format_line (proto acc) (service acc) (host acc) (name acc)).

(** Lines 72-144: one iteration of the loop, [r] being what
    [conn.ReadFrom] gave. *)
Definition iteration (servicesQueryID : N) (r : recv) : M control :=
  match r with
  | RecvErr err =>
      if Is_ErrClosed err then ret Return_nil else fail err
  | Datagram buf addr =>
      match Unpack buf with
      | Err err =>
          exec log_Printf
                 ("bad response from " ++ addr ++ ": " ++ Error err) in
          ret Continue
      | Ok msg =>
          if (Id msg =? servicesQueryID)%N then
            (* answer to initial services query *)
            exec range_Answer (Answer msg) in
            ret Continue
          else
            exec print_service msg in
            ret Continue
      end
  end.

(** Lines 71-145: the loop, run on what the successive calls of
    [conn.ReadFrom] give.  When those are used up the loop is blocked in
    [conn.ReadFrom]. *)
Fixpoint loop (servicesQueryID : N) (inputs : list recv) : M status :=
  match inputs with
  | [] => ret Waiting
  | r :: rest =>
      let* c := iteration servicesQueryID r in
      match c with
      | Continue => loop servicesQueryID rest
      | Return_nil => ret Returned_nil
      end
  end.

(** Lines 41-146. *)
Definition query (qname : string) (inputs : list recv) : M status :=
  match ListenPacket_err with
  | Some err => fail err
  | None =>
      let* servicesQueryID := dns_Id in
      let m := question_Msg servicesQueryID qname in
      let* bufq := Msg_Pack m in
      exec conn_WriteTo m bufq mdnsAddr4 in
      exec services_make in
      loop servicesQueryID inputs
  end.

(** Line 35: the run [main] starts, from the state in which nothing has
    been sent or printed yet. *)
Definition run (inputs : list recv) : result status * State :=
  query "_services._dns-sd._udp.local." inputs init_State.

End Engine.

Arguments dns_Id Id_draw st /.
Arguments Msg_Pack Pack m st /.
Arguments conn_WriteTo WriteTo_err m buf addr st /.
Arguments fmt_Printf line st /.
Arguments log_Printf line st /.
Arguments services_lookup key st /.
Arguments services_store key st /.
Arguments services_make st /.

(** ** Notions the properties are stated with *)

(** The targets of the pointer records among [answers], in order. *)
Fixpoint ptr_targets (answers : list RR) : list string :=
  match answers with
  | [] => []
  | PTR _ ptr :: rest => ptr :: ptr_targets rest
  | _ :: rest => ptr_targets rest
  end.

(** The targets of the pointer-type answers of the enumeration responses
    among [inputs]: the datagrams that decode to a message whose
    identifier is [id]. *)
Definition enum_targets (Unpack : list Byte.byte -> result Msg) (id : N)
    (inputs : list recv) : list string :=
  flat_map
    (fun r =>
       match r with
       | Datagram buf _ =>
           match Unpack buf with
           | Ok msg => if (Id msg =? id)%N then ptr_targets (Answer msg)
                       else []
           | Err _ => []
           end
       | RecvErr _ => []
       end)
    inputs.

(** The names asked for by the queries among [ps]. *)
Definition query_names (ps : list packet) : list string :=
  flat_map (fun p => map Qname (Questions (pkt_msg p))) ps.

(** How many of the queries among [ps] ask for [qname]. *)
Definition queries_for (qname : string) (ps : list packet) : nat :=
  count_occ string_dec (query_names ps) qname.

(** The names of [l] that are neither in [seen] nor earlier in [l], in
    the order of their first occurrence. *)
Fixpoint fresh_names (seen : gset string) (l : list string) : list string :=
  match l with
  | [] => []
  | x :: l' =>
      if bool_decide (x ∈ seen) then fresh_names seen l'
      else x :: fresh_names ({[ x ]} ∪ seen) l'
  end.

(** The encoder never fails; no write fails. *)
Definition Pack_never_fails (Pack : Msg -> result (list Byte.byte)) : Prop :=
  forall m, exists buf, Pack m = Ok buf.

Definition WriteTo_never_fails
    (WriteTo_err : nat -> list Byte.byte -> option error) : Prop :=
  forall k buf, WriteTo_err k buf = None.

(** The invariant of the deduplicator: among the queries sent after the
    first [k] datagrams no name is asked for twice, and every name asked
    for is in [services]. *)
Definition dedup_inv (k : nat) (st : State) : Prop :=
  k <= length (sent st) /\
  NoDup (query_names (drop k (sent st))) /\
  (forall x, x ∈ query_names (drop k (sent st)) -> x ∈ services st).

(** [r] is a datagram, not a receive error. *)
Definition is_Datagram (r : recv) : bool :=
  match r with
  | Datagram _ _ => true
  | RecvErr _ => false
  end.

(** [a] is a pointer record, a service-location record, an address
    record. *)
Definition is_PTR (a : RR) : bool :=
  match a with PTR _ _ => true | _ => false end.

Definition is_SRV (a : RR) : bool :=
  match a with SRV _ _ _ _ _ => true | _ => false end.

(** The textual addresses of the address records among [rs], in order. *)
Fixpoint address_texts (IP_String : IP -> string) (rs : list RR)
  : list string :=
  match rs with
  | [] => []
  | A _ ip :: rest => IP_String ip :: address_texts IP_String rest
  | AAAA _ ip :: rest => IP_String ip :: address_texts IP_String rest
  | _ :: rest => address_texts IP_String rest
  end.

(** [subject], its leading and trailing dots removed, is [a], [b] and
    [local] joined by dots, [a] and [b] holding no dot. *)
Definition three_local (subject a b : string) : Prop :=
  free_of "." a = true /\ free_of "." b = true /\
  strings.Trim subject "." = (a ++ "." ++ b ++ "." ++ "local")%string.

(** The line printed for [msg]. *)
Definition line_of (IP_String : IP -> string) (msg : Msg) : string :=
  let acc := assemble IP_String msg in
  (proto acc ++ tab ++ service acc ++ tab ++ host acc ++ tab ++ name acc
   ++ newline)%string.

(** ** The rules of the specification, in its words *)

(** Section 4.4 on the labels of a pointer record: the subject name is
    parsed into exactly three dot-separated, non-empty components; if the
    last is literally [local], the first two, each with leading
    underscores stripped, are the service label and the protocol label;
    any other shape leaves both unset.  (The dots around the name are
    dropped before it is split, as the code does.) *)
Definition spec_labels (subject : string) : option (string * string) :=
  match strings.Split (strings.Trim subject ".") "." with
  | [a; b; c] =>
      if negb (String.eqb a "") && negb (String.eqb b "") &&
         String.eqb c "local"
      then Some (strings.TrimLeft a "_", strings.TrimLeft b "_")
      else None
  | _ => None
  end.

(** The service and protocol labels after a pointer record with that
    subject, by the rule of the specification. *)
Definition spec_PTR_labels (acc : Acc) (subject : string)
  : string * string :=
  match spec_labels subject with
  | Some labels => labels
  | None => (service acc, proto acc)
  end.

(** Section 4.4 on the instance name: the subject name, minus its
    trailing dot, stripped as a suffix from the target. *)
Definition spec_instance_name (target subject : string) : string :=
  strings.TrimSuffix target (strings.TrimSuffix subject ".").

(** The same sentence read with the trailing dot taken off the result
    instead. *)
Definition spec_instance_name' (target subject : string) : string :=
  strings.TrimSuffix (strings.TrimSuffix target subject) ".".

(** ** Concrete collaborators and messages for the examples *)

Definition hdr (n : string) (rrtype : N) : RR_Header :=
  {| Name := n; Rrtype := rrtype; Class := 1; Ttl := 120 |}.

(** An answer to the services query naming two service types, one of
    them twice. *)
Definition ex_enum_msg (id : N) : Msg :=
  {| Id := id; Questions := [];
     Answer := [ PTR (hdr "_services._dns-sd._udp.local." 12)
                     "_http._tcp.local.";
                 PTR (hdr "_services._dns-sd._udp.local." 12)
                     "_ipp._tcp.local.";
                 PTR (hdr "_services._dns-sd._udp.local." 12)
                     "_http._tcp.local." ];
     Extra := [ SRV (hdr "x._http._tcp.local." 33) 0 0 80 "x.local." ] |}.

(** The records of the third example scenario of the specification, and
    a response that holds them. *)
Definition ex_printer_records : list RR :=
  [ PTR (hdr "_http._tcp.local." 12) "My Printer._http._tcp.local.";
    SRV (hdr "My Printer._http._tcp.local." 33) 0 0 631 "printer.local.";
    A (hdr "printer.local." 1) [Byte.xc0; Byte.xa8; Byte.x01; Byte.x05] ].

Definition ex_printer_msg (id : N) : Msg :=
  {| Id := id; Questions := [];
     Answer := firstn 1 ex_printer_records;
     Extra := skipn 1 ex_printer_records |}.

(** A response with two pointer records, the second with a subject of
    four components. *)
Definition ex_two_PTR_msg (id : N) : Msg :=
  {| Id := id; Questions := [];
     Answer := [ PTR (hdr "_http._tcp.local." 12)
                     "web._http._tcp.local.";
                 PTR (hdr "_printer._sub._http._tcp.local." 12)
                     "laser._printer._sub._http._tcp.local." ];
     Extra := [] |}.

(** A response that holds an address record only. *)
Definition ex_address_msg (id : N) : Msg :=
  {| Id := id; Questions := [];
     Answer := [ A (hdr "printer.local." 1)
                   [Byte.xc0; Byte.xa8; Byte.x01; Byte.x05] ];
     Extra := [] |}.

Definition ex_decode_error : error :=
  {| Error := "dns: overflow unpacking uint16"; Is_ErrClosed := false |}.

Definition ex_closed_error : error :=
  {| Error := "use of closed network connection"; Is_ErrClosed := true |}.

Definition ex_io_error : error :=
  {| Error := "network is unreachable"; Is_ErrClosed := false |}.

Definition ex_pack_error : error :=
  {| Error := "dns: bad rdata"; Is_ErrClosed := false |}.

(** A decoder defined on three one-byte datagrams. *)
Definition ex_Unpack (buf : list Byte.byte) : result Msg :=
  match buf with
  | [Byte.x01] => Ok (ex_enum_msg 7)
  | [Byte.x02] => Ok (ex_printer_msg 9)
  | [Byte.x03] => Ok (ex_two_PTR_msg 9)
  | _ => Err ex_decode_error
  end.

(** An encoder that keeps the names asked for, and one that fails on the
    name [_ipp._tcp.local.]. *)
Definition ex_Pack (m : Msg) : result (list Byte.byte) :=
  Ok (flat_map (fun q => list_byte_of_string (Qname q)) (Questions m)).

Definition ex_Pack_fail (m : Msg) : result (list Byte.byte) :=
  if bool_decide ("_ipp._tcp.local." ∈ map Qname (Questions m))
  then Err ex_pack_error
  else ex_Pack m.

Definition ex_Id_draw (k : nat) : N := N.of_nat (7 + k).

Definition ex_WriteTo_ok (k : nat) (buf : list Byte.byte) : option error :=
  None.

(** Writes that fail from the [k0]-th on. *)
Definition ex_WriteTo_fail (k0 k : nat) (buf : list Byte.byte)
  : option error :=
  if (k0 <=? k)%nat then Some ex_io_error else None.

Definition ex_IP_String (ip : IP) : string :=
  Join (map (fun b => itoa (Byte.to_N b)) ip) ".".

Definition ex_addr : string := "192.168.1.5:5353".

(** What is received in the example run: an answer to the services
    query, a datagram that does not decode, the response of the printer,
    and the answer to the services query once more. *)
Definition ex_inputs : list recv :=
  [ Datagram [Byte.x01] ex_addr; Datagram [Byte.x00] ex_addr;
    Datagram [Byte.x02] ex_addr; Datagram [Byte.x01] ex_addr ].

(** The state after the first answer of [ex_enum_msg], from the initial
    state. *)
Definition ex_State_http : State :=
  (range_Answer ex_Pack_fail ex_Id_draw ex_WriteTo_ok
     (firstn 1 (Answer (ex_enum_msg 7))) init_State).2.

(** The state after the response of the printer, from the initial
    state. *)
Definition ex_State_printer : State :=
  (loop ex_Pack ex_Unpack ex_IP_String ex_Id_draw ex_WriteTo_ok 7
     [Datagram [Byte.x02] ex_addr] init_State).2.

(** ** [main] *)

(** How the process stands: it has exited with a status, or [query] has
    not returned yet. *)
Inductive exit :=
| Exited (code : nat)
| Running.

Section Main.

Variable Pack : Msg -> result (list Byte.byte).
Variable Unpack : list Byte.byte -> result Msg.
Variable IP_String : IP -> string.
Variable Id_draw : nat -> N.
Variable ListenPacket_err : option error.
Variable WriteTo_err : nat -> list Byte.byte -> option error.

(** Lines 26-39.  The context [main] builds from the [timeout] flag only
    decides when the connection is closed, that is, which receive gives
    [net.ErrClosed]; that is part of [inputs].  [log.Fatalf] logs its line
    and exits with status 1; returning from [main] exits with status 0. *)
Definition main (inputs : list recv) : exit * State :=
  match run Pack Unpack IP_String Id_draw ListenPacket_err WriteTo_err
          inputs with
  | (Err err, st) =>
      (Exited 1,
       {| services := services st; sent := sent st; stdout := stdout st;
          logged := logged st ++ [("could not query: " ++ Error err)%string];
          ids_drawn := ids_drawn st |})
  | (Ok Returned_nil, st) => (Exited 0, st)
  | (Ok Waiting, st) => (Running, st)
  end.

End Main.

(** ** Further notions *)

(** The lines printed for the datagrams among [inputs] that decode to a
    message whose identifier is not [id], in order. *)
Definition service_lines (Unpack : list Byte.byte -> result Msg)
    (IP_String : IP -> string) (id : N) (inputs : list recv) : list string :=
  flat_map
    (fun r =>
       match r with
       | Datagram buf _ =>
           match Unpack buf with
           | Ok msg => if (Id msg =? id)%N then []
                       else [line_of IP_String msg]
           | Err _ => []
           end
       | RecvErr _ => []
       end)
    inputs.

(** The lines logged for the datagrams among [inputs] that do not
    decode, in order. *)
Definition bad_lines (Unpack : list Byte.byte -> result Msg)
    (inputs : list recv) : list string :=
  flat_map
    (fun r =>
       match r with
       | Datagram buf addr =>
           match Unpack buf with
           | Ok _ => []
           | Err err =>
               [("bad response from " ++ addr ++ ": " ++ Error err)%string]
           end
       | RecvErr _ => []
       end)
    inputs.

(** Every byte of [s] is in [cutset]. *)
Fixpoint all_in (cutset s : string) : bool :=
  match s with
  | EmptyString => true
  | String c s' => strings.in_cutset c cutset && all_in cutset s'
  end.

(** [s] begins with a byte of [cutset]; [s] ends with a byte of
    [cutset]. *)
Definition starts_in (cutset s : string) : bool :=
  match s with
  | EmptyString => false
  | String c _ => strings.in_cutset c cutset
  end.

Fixpoint ends_in (cutset s : string) : bool :=
  match s with
  | EmptyString => false
  | String c EmptyString => strings.in_cutset c cutset
  | String _ s' => ends_in cutset s'
  end.

(** What every datagram written by [query] is: it goes to the IPv4
    group, its bytes are the packed form of its message, and its message
    is one question of type PTR with the unicast-response bit. *)
Definition query_packet (Pack : Msg -> result (list Byte.byte))
    (p : packet) : Prop :=
  pkt_dest p = mdnsAddr4 /\
  Pack (pkt_msg p) = Ok (pkt_bytes p) /\
  exists id qname,
    pkt_msg p =
    {| Id := id;
       Questions := [ {| Qname := qname; Qtype := 12; Qclass := 32769 |} ];
       Answer := []; Extra := [] |}.

(** Every datagram sent is such a packet, the [i]-th of them carrying the
    [i]-th identifier drawn. *)
Definition sent_inv (Pack : Msg -> result (list Byte.byte))
    (Id_draw : nat -> N) (st : State) : Prop :=
  forall i p,
    sent st !! i = Some p ->
    query_packet Pack p /\ Id (pkt_msg p) = Id_draw i.

(** From [st] to [st'] nothing is taken back: [services] has only
    gained names, what was sent, printed and logged has only been
    extended, and identifiers have only been drawn. *)
Definition grows (st st' : State) : Prop :=
  services st ⊆ services st' /\
  sent st `prefix_of` sent st' /\
  stdout st `prefix_of` stdout st' /\
  logged st `prefix_of` logged st' /\
  ids_drawn st <= ids_drawn st'.

(** The four fields of the accumulator that are printed. *)
Definition printed (acc : Acc) : string * string * string * string :=
  (proto acc, service acc, host acc, name acc).

(** The states reached in the examples of the further properties. *)
Definition ex_State_mixed : State :=
  (loop ex_Pack ex_Unpack ex_IP_String ex_Id_draw ex_WriteTo_ok 7
     [Datagram [Byte.x02] ex_addr; Datagram [Byte.x00] ex_addr;
      Datagram [Byte.x01] ex_addr; Datagram [Byte.x03] ex_addr]
     init_State).2.

Definition ex_State_run : State :=
  (run ex_Pack ex_Unpack ex_IP_String ex_Id_draw None ex_WriteTo_ok
     ex_inputs).2.

Definition ex_State_enum : State :=
  (iteration ex_Pack ex_Unpack ex_IP_String ex_Id_draw ex_WriteTo_ok 7
     (Datagram [Byte.x01] ex_addr) init_State).2.

Definition ex_State_enum_printer : State :=
  (loop ex_Pack ex_Unpack ex_IP_String ex_Id_draw ex_WriteTo_ok 7
     [Datagram [Byte.x02] ex_addr] ex_State_enum).2.

Definition ex_State_main : State :=
  (main ex_Pack ex_Unpack ex_IP_String ex_Id_draw None ex_WriteTo_ok
     [Datagram [Byte.x02] ex_addr; RecvErr ex_closed_error]).2.

(** ** Checks of the string functions on concrete inputs *)

Example Split_ex1 :
  strings.Split "_http._tcp.local" "." = ["_http"; "_tcp"; "local"].
Proof. reflexivity. Qed.

Example Split_ex2 : strings.Split "" "." = [""].
Proof. reflexivity. Qed.

Example Split_ex3 : strings.Split "a..b." "." = ["a"; ""; "b"; ""].
Proof. reflexivity. Qed.

Example Split_ex4 : strings.Split "a--b-c" "--" = ["a"; "b-c"].
Proof. reflexivity. Qed.

Example Trim_ex1 : strings.Trim "..a.b.." "." = "a.b".
Proof. reflexivity. Qed.

Example Trim_ex2 : strings.Trim "__http_" "_" = "http".
Proof. reflexivity. Qed.

Example TrimSuffix_ex1 :
  strings.TrimSuffix "My Printer._http._tcp.local." "._http._tcp.local."
  = "My Printer".
Proof. reflexivity. Qed.

Example TrimSuffix_ex2 : strings.TrimSuffix "printer.local" "." = "printer.local".
Proof. reflexivity. Qed.

Example itoa_631 : itoa 631 = "631".
Proof. reflexivity. Qed.

Example itoa_0 : itoa 0 = "0".
Proof. reflexivity. Qed.

(** ** Facts about the string functions *)

Section StringFacts.

Lemma String_length_app (a b : string) :
  String.length (a ++ b) = String.length a + String.length b.
Proof. induction a as [|c a IH]; simpl; [reflexivity | now rewrite IH]. Qed.

Lemma app_assoc_s (a b c : string) : ((a ++ b) ++ c = a ++ (b ++ c))%string.
Proof. induction a as [|x a IH]; simpl; [reflexivity | now rewrite IH]. Qed.

Lemma app_empty_r (a : string) : (a ++ "")%string = a.
Proof. induction a as [|x a IH]; simpl; [reflexivity | now rewrite IH]. Qed.

Lemma substring_all (b : string) : substring 0 (String.length b) b = b.
Proof. induction b as [|c b IH]; simpl; [reflexivity | now rewrite IH]. Qed.

Lemma substring_drop (a b : string) :
  substring (String.length a) (String.length b) (a ++ b) = b.
Proof. induction a as [|c a IH]; simpl; [apply substring_all | exact IH]. Qed.

Lemma substring_take (a b : string) :
  substring 0 (String.length a) (a ++ b) = a.
Proof.
  induction a as [|c a IH]; simpl.
  - now destruct b.
  - now rewrite IH.
Qed.

Lemma HasSuffix_app (a suffix : string) :
  strings.HasSuffix (a ++ suffix) suffix = true.
Proof.
  unfold strings.HasSuffix. rewrite String_length_app.
  replace (String.length a + String.length suffix - String.length suffix)
    with (String.length a) by lia.
  rewrite substring_drop, String.eqb_refl, andb_true_r.
  apply Nat.leb_le. lia.
Qed.

Lemma TrimSuffix_app (a suffix : string) :
  strings.TrimSuffix (a ++ suffix) suffix = a.
Proof.
  unfold strings.TrimSuffix. rewrite HasSuffix_app, String_length_app.
  replace (String.length a + String.length suffix - String.length suffix)
    with (String.length a) by lia.
  apply substring_take.
Qed.

(** A suffix found by [HasSuffix] is a suffix. *)
Lemma substring_split (n : nat) (s : string) :
  n <= String.length s ->
  s = (substring 0 n s ++ substring n (String.length s - n) s)%string.
Proof.
  revert n. induction s as [|c s IH]; intros n Hn; simpl in *.
  - destruct n; [reflexivity | lia].
  - destruct n as [|n]; simpl.
    + now rewrite substring_all.
    + f_equal. apply IH. lia.
Qed.

Lemma HasSuffix_true (s suffix : string) :
  strings.HasSuffix s suffix = true ->
  s = (strings.TrimSuffix s suffix ++ suffix)%string.
Proof.
  intros H. unfold strings.TrimSuffix. rewrite H.
  unfold strings.HasSuffix in H. apply andb_true_iff in H as [Hl He].
  apply Nat.leb_le in Hl. apply String.eqb_eq in He.
  pose proof (substring_split (String.length s - String.length suffix) s)
    as E.
  replace (String.length s - (String.length s - String.length suffix))
    with (String.length suffix) in E by lia.
  rewrite He in E. apply E. lia.
Qed.

End StringFacts.

Section SplitFacts.

Variable c : ascii.
Local Abbreviation sep := (String c EmptyString).

Lemma free_of_app (a b : string) :
  free_of c (a ++ b) = free_of c a && free_of c b.
Proof.
  induction a as [|d a IH]; simpl; [reflexivity|].
  now rewrite IH, andb_assoc.
Qed.

Lemma split_scan_free (a cur : string) :
  free_of c a = true ->
  strings.split_scan sep 0 cur a = [(cur ++ a)%string].
Proof.
  revert cur. induction a as [|d a IH]; intros cur Hf; simpl in *.
  - now rewrite app_empty_r.
  - apply andb_true_iff in Hf as [Hd Ha].
    apply negb_true_iff in Hd. rewrite Hd. simpl.
    rewrite IH by assumption. rewrite app_assoc_s. reflexivity.
Qed.

Lemma split_scan_sep (a r cur : string) :
  free_of c a = true ->
  strings.split_scan sep 0 cur (a ++ String c r)
  = (cur ++ a)%string :: strings.split_scan sep 0 "" r.
Proof.
  revert cur. induction a as [|d a IH]; intros cur Hf; simpl in *.
  - rewrite Ascii.eqb_refl. simpl. now rewrite app_empty_r.
  - apply andb_true_iff in Hf as [Hd Ha].
    apply negb_true_iff in Hd. rewrite Hd. simpl.
    rewrite IH by assumption. rewrite app_assoc_s. reflexivity.
Qed.

Lemma Split_Join (parts : list string) :
  parts <> [] ->
  Forall (fun p => free_of c p = true) parts ->
  strings.Split (Join parts sep) sep = parts.
Proof.
  intros Hne Hall. unfold strings.Split.
  induction Hall as [|p rest Hp Hrest IH]; [congruence|].
  destruct rest as [|q rest].
  - simpl. now rewrite split_scan_free.
  - change (Join (p :: q :: rest) (String c ""))
      with (p ++ String c (Join (q :: rest) (String c "")))%string.
    rewrite split_scan_sep by assumption.
    rewrite IH by congruence. reflexivity.
Qed.

Lemma split_scan_inv (s cur : string) :
  free_of c cur = true ->
  Join (strings.split_scan sep 0 cur s) sep = (cur ++ s)%string /\
  Forall (fun p => free_of c p = true) (strings.split_scan sep 0 cur s) /\
  strings.split_scan sep 0 cur s <> [].
Proof.
  revert cur. induction s as [|d s IH]; intros cur Hf.
  - simpl. rewrite app_empty_r. repeat split; [|congruence].
    now constructor.
  - simpl. destruct (Ascii.eqb d c) eqn:Hd; simpl.
    + apply Ascii.eqb_eq in Hd. subst d.
      destruct (IH "" eq_refl) as (HJ & HF & HN).
      repeat split; [| now constructor | congruence].
      destruct (strings.split_scan sep 0 "" s) as [|q l] eqn:E;
        [congruence|].
      change (Join (cur :: q :: l) sep)
        with (cur ++ sep ++ Join (q :: l) sep)%string.
      now rewrite HJ.
    + destruct (IH (cur ++ String d "")%string) as (HJ & HF & HN).
      { rewrite free_of_app, Hf. simpl. now rewrite Hd. }
      repeat split; [| assumption | assumption].
      rewrite HJ. rewrite app_assoc_s. reflexivity.
Qed.

Lemma Join_Split (s : string) :
  Join (strings.Split s sep) sep = s /\
  Forall (fun p => free_of c p = true) (strings.Split s sep).
Proof.
  destruct (split_scan_inv s "" eq_refl) as (HJ & HF & _).
  unfold strings.Split. now split.
Qed.

(** Splitting on one byte gives three components exactly when the string
    is three strings free of that byte, joined by it. *)
Lemma Split_three (s x y z : string) :
  strings.Split s sep = [x; y; z] <->
  (free_of c x = true /\ free_of c y = true /\ free_of c z = true /\
   s = (x ++ sep ++ y ++ sep ++ z)%string).
Proof.
  split.
  - intros H. destruct (Join_Split s) as [HJ HF]. rewrite H in HJ, HF.
    inversion HF as [|? ? Hx HF1]; subst.
    inversion HF1 as [|? ? Hy HF2]; subst.
    inversion HF2 as [|? ? Hz _]; subst.
    repeat split; assumption.
  - intros (Hx & Hy & Hz & ->).
    change (x ++ sep ++ y ++ sep ++ z)%string with (Join [x; y; z] sep).
    apply Split_Join; [congruence|]. now repeat constructor.
Qed.

End SplitFacts.

(** ** Facts about the notions of the statements *)

Ltac decide_all :=
  repeat match goal with
         | |- context [bool_decide ?P] => destruct (bool_decide_reflect P)
         end.

Lemma count_fresh_names (x : string) (l : list string) :
  forall seen : gset string,
    count_occ string_dec (fresh_names seen l) x
    = if bool_decide (x ∈ seen) then 0
      else if bool_decide (x ∈ l) then 1 else 0.
Proof.
  induction l as [|y l IH]; intros seen; simpl.
  - decide_all; try reflexivity; set_solver.
  - destruct (bool_decide_reflect (y ∈ seen)) as [Hy|Hy].
    + rewrite IH. decide_all; try reflexivity; set_solver.
    + simpl. rewrite IH. destruct (string_dec y x) as [->|Hne].
      * decide_all; try reflexivity; set_solver.
      * decide_all; try reflexivity; set_solver.
Qed.

Lemma fresh_names_app (l1 l2 : list string) :
  forall seen : gset string,
    fresh_names seen (l1 ++ l2)
    = fresh_names seen l1 ++ fresh_names (seen ∪ list_to_set l1) l2.
Proof.
  induction l1 as [|y l1 IH]; intros seen; simpl.
  - f_equal. set_solver.
  - destruct (bool_decide_reflect (y ∈ seen)) as [Hy|Hy].
    + rewrite IH. do 2 f_equal. set_solver.
    + simpl. rewrite IH. do 3 f_equal. set_solver.
Qed.

Lemma query_names_app (ps qs : list packet) :
  query_names (ps ++ qs) = query_names ps ++ query_names qs.
Proof. unfold query_names. now rewrite flat_map_app. Qed.

Lemma enum_targets_cons Unpack id r inputs :
  enum_targets Unpack id (r :: inputs)
  = enum_targets Unpack id [r] ++ enum_targets Unpack id inputs.
Proof. unfold enum_targets. simpl. now rewrite app_nil_r. Qed.

(** ** Properties of the engine *)

Section Properties.

Variable Pack : Msg -> result (list Byte.byte).
Variable Unpack : list Byte.byte -> result Msg.
Variable IP_String : IP -> string.
Variable Id_draw : nat -> N.
Variable WriteTo_err : nat -> list Byte.byte -> option error.

Local Abbreviation range_Answer' := (range_Answer Pack Id_draw WriteTo_err).
Local Abbreviation iteration' :=
  (iteration Pack Unpack IP_String Id_draw WriteTo_err).
Local Abbreviation loop' := (loop Pack Unpack IP_String Id_draw WriteTo_err).
Local Abbreviation query' :=
  (fun e => query Pack Unpack IP_String Id_draw e WriteTo_err).
Local Abbreviation run' :=
  (fun e => run Pack Unpack IP_String Id_draw e WriteTo_err).

Local Abbreviation Pack_total := (Pack_never_fails Pack).
Local Abbreviation WriteTo_total := (WriteTo_never_fails WriteTo_err).

Lemma bind_Ok {T U} (m : M T) (k : T -> M U) st v st' :
  m st = (Ok v, st') -> bind m k st = k v st'.
Proof. intros H. unfold bind. now rewrite H. Qed.


(** One step of the loop over the answers, on a pointer record. *)
Lemma range_Answer_PTR (h : RR_Header) (ptr : string) (rest : list RR)
    (st : State) :
  range_Answer' (PTR h ptr :: rest) st
  = if bool_decide (ptr ∈ services st) then range_Answer' rest st
    else
      let m := question_Msg (Id_draw (ids_drawn st)) ptr in
      let st1 := {| services := {[ ptr ]} ∪ services st; sent := sent st;
                    stdout := stdout st; logged := logged st;
                    ids_drawn := S (ids_drawn st) |} in
      match Pack m with
      | Err e => (Err e, st1)
      | Ok buf =>
          match WriteTo_err (length (sent st)) buf with
          | Some e => (Err e, st1)
          | None =>
              range_Answer' rest
                {| services := {[ ptr ]} ∪ services st;
                   sent := sent st ++
                           [{| pkt_msg := m; pkt_bytes := buf;
                               pkt_dest := mdnsAddr4 |}];
                   stdout := stdout st; logged := logged st;
                   ids_drawn := S (ids_drawn st) |}
          end
      end.
Proof.
  simpl. unfold bind. simpl.
  destruct (bool_decide (ptr ∈ services st)); [reflexivity|].
  destruct (Pack _); [|reflexivity].
  destruct (WriteTo_err _ _); reflexivity.
Qed.

(** One step of the loop over the answers, on any other record. *)
Lemma range_Answer_other (a : RR) (rest : list RR) (st : State) :
  is_PTR a = false ->
  range_Answer' (a :: rest) st = range_Answer' rest st.
Proof. destruct a; simpl; congruence. Qed.

(** The loop over the answers is the loop over a first part followed by
    the loop over the rest. *)
Lemma range_Answer_app (l1 l2 : list RR) (st : State) :
  range_Answer' (l1 ++ l2) st
  = bind (range_Answer' l1) (fun _ => range_Answer' l2) st.
Proof.
  revert st. induction l1 as [|a l1 IH]; intros st; [reflexivity|].
  rewrite <- app_comm_cons.
  destruct (is_PTR a) eqn:Ha.
  - destruct a; try discriminate. unfold bind.
    rewrite !range_Answer_PTR.
    destruct (bool_decide _); [apply IH|]. simpl.
    destruct (Pack _); [|reflexivity].
    destruct (WriteTo_err _ _); [reflexivity|]. apply IH.
  - unfold bind. rewrite !range_Answer_other by assumption. apply IH.
Qed.

(** The loop over the answers prints and logs nothing. *)
Lemma range_Answer_quiet (answers : list RR) (st : State) :
  stdout (range_Answer' answers st).2 = stdout st /\
  logged (range_Answer' answers st).2 = logged st.
Proof.
  revert st. induction answers as [|a rest IH]; intros st; [now split|].
  destruct (is_PTR a) eqn:Ha.
  - destruct a; try discriminate. rewrite range_Answer_PTR.
    destruct (bool_decide _); [apply IH|]. simpl.
    destruct (Pack _); [|now split].
    destruct (WriteTo_err _ _); [now split|].
    match goal with |- context [range_Answer' rest ?s] =>
      destruct (IH s) as [H1 H2] end.
    now rewrite H1, H2.
  - rewrite range_Answer_other by assumption. apply IH.
Qed.

(** With an encoder and writes that do not fail, the loop over the
    answers ends without error, having asked once for each target that
    was not yet in [services]. *)
Lemma range_Answer_total (answers : list RR) :
  Pack_total -> WriteTo_total ->
  forall st, exists st' new,
    range_Answer' answers st = (Ok tt, st') /\
    services st' = services st ∪ list_to_set (ptr_targets answers) /\
    sent st' = sent st ++ new /\
    query_names new = fresh_names (services st) (ptr_targets answers) /\
    stdout st' = stdout st /\ logged st' = logged st.
Proof.
  intros HP HW. induction answers as [|a rest IH]; intros st.
  - exists st, []. simpl. rewrite app_nil_r. repeat split. set_solver.
  - destruct (is_PTR a) eqn:Ha.
    + destruct a; try discriminate. rewrite range_Answer_PTR. simpl.
      destruct (bool_decide_reflect (Ptr ∈ services st)) as [Hin|Hin].
      * destruct (IH st) as (st' & new & E & Hs & Hn & Hq & Ho).
        exists st', new. repeat split; try tauto. set_solver.
      * destruct (HP (question_Msg (Id_draw (ids_drawn st)) Ptr))
          as [buf Eb].
        rewrite Eb, HW.
        match goal with |- context [range_Answer' rest ?s] =>
          destruct (IH s) as (st' & new & E & Hs & Hn & Hq & Ho) end.
        simpl in *. eexists st', (_ :: new).
        repeat split; try tauto; [set_solver | |].
        -- rewrite Hn, <- app_assoc. reflexivity.
        -- unfold query_names in *. simpl. now rewrite Hq.
    + rewrite range_Answer_other by assumption.
      replace (ptr_targets (a :: rest)) with (ptr_targets rest)
        by (destruct a; try reflexivity; discriminate).
      apply IH.
Qed.

(** One iteration of the loop followed by the rest of the loop. *)
Lemma loop_cons (id : N) (r : recv) (rest : list recv) (st : State) :
  loop' id (r :: rest) st
  = match iteration' id r st with
    | (Ok Continue, st') => loop' id rest st'
    | (Ok Return_nil, st') => (Ok Returned_nil, st')
    | (Err e, st') => (Err e, st')
    end.
Proof.
  simpl. unfold bind. destruct (iteration' id r st) as [[[]|] ?]; reflexivity.
Qed.

(** The iteration on a datagram that does not decode. *)
Lemma iteration_bad (id : N) buf addr err (st : State) :
  Unpack buf = Err err ->
  iteration' id (Datagram buf addr) st
  = (Ok Continue,
     {| services := services st; sent := sent st; stdout := stdout st;
        logged := logged st
                  ++ [("bad response from " ++ addr ++ ": " ++ Error err)
                      %string];
        ids_drawn := ids_drawn st |}).
Proof. intros H. simpl. now rewrite H. Qed.

(** The iteration on an answer to the services query. *)
Lemma iteration_enum (id : N) buf addr msg (st : State) :
  Unpack buf = Ok msg -> Id msg = id ->
  iteration' id (Datagram buf addr) st
  = match range_Answer' (Answer msg) st with
    | (Ok _, st') => (Ok Continue, st')
    | (Err e, st') => (Err e, st')
    end.
Proof.
  intros H <-. simpl. rewrite H, N.eqb_refl. unfold bind.
  now destruct (range_Answer' (Answer msg) st) as [[] ?].
Qed.

(** The iteration on any other response. *)
Lemma iteration_service (id : N) buf addr msg (st : State) :
  Unpack buf = Ok msg -> Id msg <> id ->
  iteration' id (Datagram buf addr) st
  = (Ok Continue,
     {| services := services st; sent := sent st;
        stdout := stdout st ++ [line_of IP_String msg];
        logged := logged st; ids_drawn := ids_drawn st |}).
Proof.
  intros H Hne. simpl. rewrite H.
  apply N.eqb_neq in Hne. rewrite Hne. reflexivity.
Qed.

(** The loop on a first part of the inputs, then on the rest. *)
Lemma loop_app (id : N) (l1 l2 : list recv) (st : State) :
  loop' id (l1 ++ l2) st
  = match loop' id l1 st with
    | (Ok Waiting, st') => loop' id l2 st'
    | other => other
    end.
Proof.
  revert st. induction l1 as [|r l1 IH]; intros st; [reflexivity|].
  rewrite <- app_comm_cons, !loop_cons.
  destruct (iteration' id r st) as [[[]|] st']; try reflexivity. apply IH.
Qed.

(** With an encoder and writes that do not fail, the loop on datagrams
    goes through all of them and is then blocked in the next receive,
    having asked once for each new target of the enumeration responses. *)
Lemma loop_total (id : N) (inputs : list recv) :
  Pack_total -> WriteTo_total ->
  forallb is_Datagram inputs = true ->
  forall st, exists st' new,
    loop' id inputs st = (Ok Waiting, st') /\
    services st' = services st ∪ list_to_set (enum_targets Unpack id inputs) /\
    sent st' = sent st ++ new /\
    query_names new
    = fresh_names (services st) (enum_targets Unpack id inputs).
Proof.
  intros HP HW. induction inputs as [|r rest IH]; intros Hd st.
  - exists st, []. simpl. rewrite app_nil_r. repeat split. set_solver.
  - simpl in Hd. apply andb_true_iff in Hd as [Hr Hd].
    destruct r as [buf addr|]; [|discriminate].
    rewrite loop_cons, enum_targets_cons, fresh_names_app.
    unfold enum_targets at 1 3 4. simpl flat_map. rewrite !app_nil_r.
    destruct (Unpack buf) as [msg|err] eqn:Eu.
    + destruct (N.eqb_spec (Id msg) id) as [Hid|Hid].
      * rewrite (iteration_enum id buf addr msg st Eu Hid).
        destruct (range_Answer_total (Answer msg) HP HW st)
          as (st1 & new1 & E1 & Hs1 & Hn1 & Hq1 & _).
        rewrite E1.
        destruct (IH Hd st1) as (st' & new & E & Hs & Hn & Hq).
        exists st', (new1 ++ new). rewrite <- Hs1.
        repeat split; [assumption | set_solver | |].
        -- rewrite Hn, Hn1. now rewrite <- app_assoc.
        -- rewrite query_names_app. now rewrite Hq, Hq1.
      * rewrite (iteration_service id buf addr msg st Eu Hid).
        match goal with |- context [loop' id rest ?s] =>
          destruct (IH Hd s) as (st' & new & E & Hs & Hn & Hq) end.
        exists st', new. simpl in *.
        replace (services st ∪ ∅) with (services st) by set_solver.
        repeat split; [assumption | set_solver | assumption | assumption].
    + rewrite (iteration_bad id buf addr err st Eu).
      match goal with |- context [loop' id rest ?s] =>
        destruct (IH Hd s) as (st' & new & E & Hs & Hn & Hq) end.
      exists st', new. cbn [services sent list_to_set foldr app] in *.
      replace (services st ∪ ∅) with (services st) by set_solver.
      repeat split; [assumption | set_solver | assumption | assumption].
Qed.

(** What [query] does before its loop: it draws the identifier of the
    services query, packs the query and writes it. *)
Lemma query_start (qname : string) (inputs : list recv) (st : State) buf :
  Pack (question_Msg (Id_draw (ids_drawn st)) qname) = Ok buf ->
  WriteTo_err (length (sent st)) buf = None ->
  query' None qname inputs st
  = loop' (Id_draw (ids_drawn st)) inputs
      {| services := ∅;
         sent := sent st ++
                 [{| pkt_msg := question_Msg (Id_draw (ids_drawn st)) qname;
                     pkt_bytes := buf; pkt_dest := mdnsAddr4 |}];
         stdout := stdout st; logged := logged st;
         ids_drawn := S (ids_drawn st) |}.
Proof.
  intros HP HW. unfold query, bind. simpl. rewrite HP. simpl.
  rewrite HW. reflexivity.
Qed.

(** The loop over the answers keeps the invariant of the deduplicator,
    whether it ends with an error or not. *)
Lemma range_Answer_inv (k : nat) (answers : list RR) :
  forall st, dedup_inv k st -> dedup_inv k (range_Answer' answers st).2.
Proof.
  induction answers as [|a rest IH]; intros st Hinv; [exact Hinv|].
  destruct (is_PTR a) eqn:Ha.
  - destruct a; try discriminate. rewrite range_Answer_PTR.
    destruct (bool_decide_reflect (Ptr ∈ services st)) as [Hin|Hin];
      [now apply IH|].
    destruct Hinv as (Hk & Hnd & Hsub).
    assert (Hkeep : dedup_inv k
              {| services := {[ Ptr ]} ∪ services st; sent := sent st;
                 stdout := stdout st; logged := logged st;
                 ids_drawn := S (ids_drawn st) |}).
    { repeat split; simpl; [assumption | assumption |].
      intros x Hx. apply elem_of_union_r. now apply Hsub. }
    cbv zeta. destruct (Pack _) as [buf|e]; [|exact Hkeep].
    destruct (WriteTo_err _ _); [exact Hkeep|].
    apply IH. repeat split; simpl.
    + rewrite length_app. lia.
    + rewrite drop_app_le by assumption. rewrite query_names_app.
      apply NoDup_app. repeat split; [assumption | | ].
      * intros x Hx Hx'. simpl in Hx'.
        apply list_elem_of_singleton in Hx'. subst x.
        apply Hin. now apply Hsub.
      * simpl. apply NoDup_singleton.
    + rewrite drop_app_le by assumption. rewrite query_names_app.
      intros x Hx. apply elem_of_app in Hx as [Hx|Hx].
      * apply elem_of_union_r. now apply Hsub.
      * simpl in Hx. apply list_elem_of_singleton in Hx. subst x.
        apply elem_of_union_l. now apply elem_of_singleton.
  - rewrite range_Answer_other by assumption. now apply IH.
Qed.

(** So does an iteration of the loop of [query]. *)
Lemma iteration_inv (k : nat) (id : N) (r : recv) (st : State) :
  dedup_inv k st -> dedup_inv k (iteration' id r st).2.
Proof.
  intros Hinv. destruct r as [buf addr|err].
  - destruct (Unpack buf) as [msg|e] eqn:Eu.
    + destruct (N.eqb_spec (Id msg) id) as [Hid|Hid].
      * rewrite (iteration_enum id buf addr msg st Eu Hid).
        pose proof (range_Answer_inv k (Answer msg) st Hinv) as H.
        now destruct (range_Answer' (Answer msg) st) as [[] st'].
      * rewrite (iteration_service id buf addr msg st Eu Hid). exact Hinv.
    + rewrite (iteration_bad id buf addr e st Eu). exact Hinv.
  - simpl. now destruct (Is_ErrClosed err).
Qed.

(** So does the loop. *)
Lemma loop_inv (k : nat) (id : N) (inputs : list recv) :
  forall st, dedup_inv k st -> dedup_inv k (loop' id inputs st).2.
Proof.
  induction inputs as [|r rest IH]; intros st Hinv; [exact Hinv|].
  rewrite loop_cons. pose proof (iteration_inv k id r st Hinv) as H.
  destruct (iteration' id r st) as [[[]|] st']; simpl in H;
    [now apply IH | exact H | exact H].
Qed.

(** In every run, whatever is received and whatever fails, no name is
    asked for by two follow-up queries. *)
Lemma run_inv (lp : option error) (inputs : list recv) :
  NoDup (query_names (tl (sent (run' lp inputs).2))).
Proof.
  unfold run, query. destruct lp as [e|]; [apply NoDup_nil_2|].
  unfold bind. simpl.
  destruct (Pack _) as [buf|e]; [|apply NoDup_nil_2]. simpl.
  destruct (WriteTo_err _ _); [apply NoDup_nil_2|]. simpl.
  match goal with |- context [loop' ?i inputs ?s] =>
    assert (Hinv : dedup_inv 1 (loop' i inputs s).2);
    [apply loop_inv | destruct (loop' i inputs s) as [res st]] end.
  - repeat split; simpl; [lia | apply NoDup_nil_2 |].
    intros x Hx. now apply elem_of_nil in Hx.
  - destruct Hinv as (Hk & Hnd & _). simpl in *.
    destruct (sent st); [apply NoDup_nil_2 | exact Hnd].
Qed.

(** The run on datagrams, with an encoder and writes that do not fail. *)
Lemma run_followups (inputs : list recv) :
  Pack_total -> WriteTo_total ->
  forallb is_Datagram inputs = true ->
  exists st,
    run' None inputs = (Ok Waiting, st) /\
    query_names (tl (sent st))
    = fresh_names ∅ (enum_targets Unpack (Id_draw 0) inputs) /\
    services st = list_to_set (enum_targets Unpack (Id_draw 0) inputs).
Proof.
  intros HP HW Hd. unfold run.
  destruct (HP (question_Msg (Id_draw 0) "_services._dns-sd._udp.local."))
    as [buf Eb].
  rewrite (query_start _ inputs init_State buf Eb (HW _ _)).
  match goal with |- context [loop' _ inputs ?s] =>
    destruct (loop_total (Id_draw 0) inputs HP HW Hd s)
      as (st & new & E & Hs & Hn & Hq) end.
  cbn [services sent init_State ids_drawn app] in *.
  exists st. rewrite Hn. repeat split; [exact E | exact Hq |].
  rewrite Hs. clear. set_solver.
Qed.

(** C1. The follow-up queries of a run are the datagrams sent after the
    first one, which is the services query.  In every run no name is
    asked for by more than one follow-up query.  In a run whose encoder and writes do not fail and whose
    receives all give datagrams, the loop goes through all the datagrams,
    and for every name that is the target of a pointer-type answer in an
    enumeration response, exactly one follow-up query is sent, however
    often the name repeats; no follow-up query is sent for any other
    name.  A pointer record whose target is already in [services] sends
    nothing and changes nothing, and storing a name twice is storing it
    once. *)
Theorem C1_one_followup_per_service_type (inputs : list recv) :
  (forall lp x, queries_for x (tl (sent (run' lp inputs).2)) <= 1) /\
  (Pack_total -> WriteTo_total ->
  forallb is_Datagram inputs = true ->
  exists st,
    run' None inputs = (Ok Waiting, st) /\
    (forall x, x ∈ enum_targets Unpack (Id_draw 0) inputs ->
               queries_for x (tl (sent st)) = 1) /\
    (forall x, x ∉ enum_targets Unpack (Id_draw 0) inputs ->
               queries_for x (tl (sent st)) = 0) /\
    services st = list_to_set (enum_targets Unpack (Id_draw 0) inputs) /\
    (forall h ptr rest st0,
        ptr ∈ services st0 ->
        range_Answer' (PTR h ptr :: rest) st0 = range_Answer' rest st0) /\
    (forall x st0,
        services (services_store x (services_store x st0).2).2
        = services (services_store x st0).2)).
Proof.
  split.
  { intros lp x. unfold queries_for.
    apply (proj1 (NoDup_count_occ string_dec _)), NoDup_ListNoDup, run_inv. }
  intros HP HW Hd.
  destruct (run_followups inputs HP HW Hd) as (st & E & Hq & Hs).
  exists st. unfold queries_for. rewrite Hq. repeat split.
  - exact E.
  - intros x Hx. rewrite count_fresh_names.
    rewrite bool_decide_eq_false_2 by apply not_elem_of_empty.
    now rewrite bool_decide_eq_true_2.
  - intros x Hx. rewrite count_fresh_names.
    rewrite bool_decide_eq_false_2 by apply not_elem_of_empty.
    now rewrite bool_decide_eq_false_2.
  - exact Hs.
  - intros h ptr rest st0 Hin. rewrite range_Answer_PTR.
    now rewrite bool_decide_eq_true_2.
  - intros x st0. simpl. clear. set_solver.
Qed.

(** The loop over the answers stops with the error of the encoder or of
    the write at the first new target for which one of them fails; the
    target is in [services] by then. *)
Lemma range_Answer_fails (a1 a2 : list RR) (h : RR_Header) (ptr : string)
    (st st1 : State) (e : error) :
  range_Answer' a1 st = (Ok tt, st1) ->
  ptr ∉ services st1 ->
  (Pack (question_Msg (Id_draw (ids_drawn st1)) ptr) = Err e \/
   exists buf,
     Pack (question_Msg (Id_draw (ids_drawn st1)) ptr) = Ok buf /\
     WriteTo_err (length (sent st1)) buf = Some e) ->
  range_Answer' (a1 ++ PTR h ptr :: a2) st
  = (Err e,
     {| services := {[ ptr ]} ∪ services st1; sent := sent st1;
        stdout := stdout st1; logged := logged st1;
        ids_drawn := S (ids_drawn st1) |}).
Proof.
  intros E1 Hnew Hfail.
  rewrite range_Answer_app, (bind_Ok _ _ _ _ _ E1), range_Answer_PTR.
  rewrite bool_decide_eq_false_2 by assumption. simpl.
  destruct Hfail as [HP|(buf & HP & HW)]; rewrite HP; [reflexivity|].
  now rewrite HW.
Qed.

(** An error of an iteration is the error of the loop. *)
Lemma loop_fails (id : N) (pre rest : list recv) (r : recv)
    (st st1 st2 : State) (e : error) :
  loop' id pre st = (Ok Waiting, st1) ->
  iteration' id r st1 = (Err e, st2) ->
  loop' id (pre ++ r :: rest) st = (Err e, st2).
Proof.
  intros E1 E2. rewrite loop_app, E1, loop_cons, E2. reflexivity.
Qed.

(** C2. A decoded message whose identifier is that of the services query
    prints no line and logs nothing, whatever records it holds: the
    iteration is the loop over its answers, and nothing else of the
    message is read. *)
Theorem C2_enumeration_response_prints_nothing
    (id : N) buf addr (msg : Msg) (st : State) :
  Unpack buf = Ok msg -> Id msg = id ->
  stdout (iteration' id (Datagram buf addr) st).2 = stdout st /\
  logged (iteration' id (Datagram buf addr) st).2 = logged st /\
  iteration' id (Datagram buf addr) st
  = match range_Answer' (Answer msg) st with
    | (Ok _, st') => (Ok Continue, st')
    | (Err e, st') => (Err e, st')
    end.
Proof.
  intros Hu Hid. rewrite (iteration_enum id buf addr msg st Hu Hid).
  destruct (range_Answer_quiet (Answer msg) st) as [H1 H2].
  destruct (range_Answer' (Answer msg) st) as [[] st']; simpl in *;
    now repeat split.
Qed.

(** The accumulator fields that only pointer records write. *)
Lemma fold_no_PTR (rs : list RR) :
  forallb (fun a => negb (is_PTR a)) rs = true ->
  forall acc,
    name (fold_left (assemble_RR IP_String) rs acc) = name acc /\
    service (fold_left (assemble_RR IP_String) rs acc) = service acc /\
    proto (fold_left (assemble_RR IP_String) rs acc) = proto acc.
Proof.
  induction rs as [|a rs IH]; intros H acc; [now repeat split|].
  simpl in H. apply andb_true_iff in H as [Ha H].
  simpl. destruct (IH H (assemble_RR IP_String acc a)) as (H1 & H2 & H3).
  rewrite H1, H2, H3. destruct a; try discriminate; now repeat split.
Qed.

(** The accumulator field that only service-location records write. *)
Lemma fold_no_SRV (rs : list RR) :
  forallb (fun a => negb (is_SRV a)) rs = true ->
  forall acc, host (fold_left (assemble_RR IP_String) rs acc) = host acc.
Proof.
  induction rs as [|a rs IH]; intros H acc; [reflexivity|].
  simpl in H. apply andb_true_iff in H as [Ha H].
  simpl. rewrite (IH H). destruct a; try discriminate; try reflexivity.
  simpl. now destruct (_ && _).
Qed.

(** C3. A decoded message whose identifier is not that of the services
    query prints exactly one line: the protocol label, the service label,
    the host and port, and the instance name, separated by tabs and ended
    by a newline; nothing is sent or logged.  A field that no record of
    the message writes is empty.  The lines of successive responses are
    printed in the order the responses are received. *)
Theorem C3_one_line_per_service_response :
  (forall (id : N) buf addr (msg : Msg) (st : State),
      Unpack buf = Ok msg -> Id msg <> id ->
      let acc := assemble IP_String msg in
      iteration' id (Datagram buf addr) st
      = (Ok Continue,
         {| services := services st; sent := sent st;
            stdout := stdout st ++
                      [(proto acc ++ tab ++ service acc ++ tab ++ host acc
                        ++ tab ++ name acc ++ newline)%string];
            logged := logged st; ids_drawn := ids_drawn st |})) /\
  (forall msg : Msg,
      let acc := assemble IP_String msg in
      (forallb (fun a => negb (is_PTR a)) (Answer msg ++ Extra msg) = true ->
       name acc = "" /\ service acc = "" /\ proto acc = "") /\
      (forallb (fun a => negb (is_SRV a)) (Answer msg ++ Extra msg) = true ->
       host acc = "")) /\
  (forall (id : N) (inputs : list recv) (msgs : list Msg) (st : State),
      Forall2 (fun r msg => exists buf addr,
                   r = Datagram buf addr /\ Unpack buf = Ok msg /\
                   Id msg <> id) inputs msgs ->
      loop' id inputs st
      = (Ok Waiting,
         {| services := services st; sent := sent st;
            stdout := stdout st ++ map (line_of IP_String) msgs;
            logged := logged st; ids_drawn := ids_drawn st |})).
Proof.
  split; [|split].
  - intros id buf addr msg st Hu Hid acc.
    now rewrite (iteration_service id buf addr msg st Hu Hid).
  - intros msg acc. split; intros H.
    + apply (fold_no_PTR _ H zero_Acc).
    + apply (fold_no_SRV _ H zero_Acc).
  - intros id inputs msgs st H. revert st.
    induction H as [|r msg inputs msgs (buf & addr & -> & Hu & Hid) _ IH];
      intros st.
    + simpl. rewrite app_nil_r. now destruct st.
    + rewrite loop_cons, (iteration_service id buf addr msg st Hu Hid), IH.
      simpl. now rewrite <- app_assoc.
Qed.

(** C7. A datagram that does not decode is logged with the address of
    its sender and dropped: nothing is printed or sent, [services] is as
    before, and the loop goes on with the datagrams that follow. *)
Theorem C7_malformed_datagram_logged_and_skipped
    (id : N) buf addr (err : error) (rest : list recv) (st : State) :
  Unpack buf = Err err ->
  let st' :=
    {| services := services st; sent := sent st; stdout := stdout st;
       logged := logged st
                 ++ [("bad response from " ++ addr ++ ": " ++ Error err)
                     %string];
       ids_drawn := ids_drawn st |} in
  iteration' id (Datagram buf addr) st = (Ok Continue, st') /\
  loop' id (Datagram buf addr :: rest) st = loop' id rest st'.
Proof.
  intros Hu st'. split.
  - apply iteration_bad, Hu.
  - now rewrite loop_cons, (iteration_bad id buf addr err st Hu).
Qed.

(** C8. When the receive the loop has reached fails with an error that is
    [net.ErrClosed], [query] returns [nil] and the state is as it was, so
    nothing more is printed, whatever would have been received later.
    When it fails with any other error, that error is returned.  An
    error of the write of a follow-up query, and an error of the write of
    the services query, are returned as well. *)
Theorem C8_closed_is_success_other_errors_abort :
  (forall (id : N) pre err rest (st st1 : State),
      loop' id pre st = (Ok Waiting, st1) ->
      Is_ErrClosed err = true ->
      loop' id (pre ++ RecvErr err :: rest) st = (Ok Returned_nil, st1)) /\
  (forall (id : N) pre err rest (st st1 : State),
      loop' id pre st = (Ok Waiting, st1) ->
      Is_ErrClosed err = false ->
      loop' id (pre ++ RecvErr err :: rest) st = (Err err, st1)) /\
  (forall (id : N) pre buf addr (msg : Msg) rest a1 h ptr a2
          (st st1 st2 : State) b e,
      loop' id pre st = (Ok Waiting, st1) ->
      Unpack buf = Ok msg -> Id msg = id ->
      Answer msg = a1 ++ PTR h ptr :: a2 ->
      range_Answer' a1 st1 = (Ok tt, st2) ->
      ptr ∉ services st2 ->
      Pack (question_Msg (Id_draw (ids_drawn st2)) ptr) = Ok b ->
      WriteTo_err (length (sent st2)) b = Some e ->
      (loop' id (pre ++ Datagram buf addr :: rest) st).1 = Err e) /\
  (forall qname inputs (st : State) b e,
      Pack (question_Msg (Id_draw (ids_drawn st)) qname) = Ok b ->
      WriteTo_err (length (sent st)) b = Some e ->
      (query' None qname inputs st).1 = Err e).
Proof.
  repeat split.
  - intros id pre err rest st st1 E Hc.
    rewrite loop_app, E, loop_cons. simpl. now rewrite Hc.
  - intros id pre err rest st st1 E Hc.
    rewrite loop_app, E, loop_cons. simpl. now rewrite Hc.
  - intros id pre buf addr msg rest a1 h ptr a2 st st1 st2 b e
      E Hu Hid Ha E1 Hnew HP HW.
    erewrite loop_fails; [reflexivity | exact E |].
    rewrite (iteration_enum id buf addr msg st1 Hu Hid), Ha.
    erewrite range_Answer_fails; [reflexivity | exact E1 | exact Hnew |].
    right. now exists b.
  - intros qname inputs st b e HP HW.
    unfold query, bind. simpl. rewrite HP. simpl. now rewrite HW.
Qed.

(** C10. When the encoder or the write fails for a new service type, the
    loop over the answers returns that error and so does the run, and
    the name of the service type is in [services] in the state the error
    leaves: [services] has changed, nothing has been sent. *)
Theorem C10_services_changed_before_failure
    (id : N) pre buf addr (msg : Msg) rest a1 h ptr a2
    (st st1 st2 : State) (e : error) :
  loop' id pre st = (Ok Waiting, st1) ->
  Unpack buf = Ok msg -> Id msg = id ->
  Answer msg = a1 ++ PTR h ptr :: a2 ->
  range_Answer' a1 st1 = (Ok tt, st2) ->
  ptr ∉ services st2 ->
  (Pack (question_Msg (Id_draw (ids_drawn st2)) ptr) = Err e \/
   exists b,
     Pack (question_Msg (Id_draw (ids_drawn st2)) ptr) = Ok b /\
     WriteTo_err (length (sent st2)) b = Some e) ->
  exists st',
    loop' id (pre ++ Datagram buf addr :: rest) st = (Err e, st') /\
    range_Answer' (Answer msg) st1 = (Err e, st') /\
    ptr ∈ services st' /\
    services st' = {[ ptr ]} ∪ services st2 /\
    services st' <> services st2 /\
    sent st' = sent st2.
Proof.
  intros E Hu Hid Ha E1 Hnew Hfail.
  pose proof (range_Answer_fails a1 a2 h ptr st1 st2 e E1 Hnew Hfail) as HA.
  rewrite <- Ha in HA. eexists. split; [|split; [exact HA|]].
  - eapply loop_fails; [exact E|].
    rewrite (iteration_enum id buf addr msg st1 Hu Hid), HA. reflexivity.
  - simpl. repeat split; [set_solver |].
    intros Heq. apply Hnew. rewrite <- Heq. set_solver.
Qed.

(** The test of line 131 holds exactly of the lists of three components
    whose last is [local]. *)
Lemma three_parts_local (parts : list string) :
  (length parts =? 3)%nat && String.eqb (nth 2 parts "") "local" = true <->
  exists a b, parts = [a; b; "local"].
Proof.
  split.
  - intros H. apply andb_true_iff in H as [Hl He].
    apply Nat.eqb_eq in Hl. apply String.eqb_eq in He.
    destruct parts as [|a [|b [|c [|d parts]]]]; try discriminate.
    simpl in He. subst c. now exists a, b.
  - intros (a & b & ->). reflexivity.
Qed.

(** The test of line 131 on the subject of a pointer record, in terms of
    the shape of the subject. *)
Lemma subject_test (subject : string) :
  let svcParts := strings.Split (strings.Trim subject ".") "." in
  (forall a b, three_local subject a b -> svcParts = [a; b; "local"]) /\
  (svcParts = [nth 0 svcParts ""; nth 1 svcParts ""; "local"] ->
   three_local subject (nth 0 svcParts "") (nth 1 svcParts "")).
Proof.
  intros svcParts. split.
  - intros a b (Ha & Hb & Ht). apply (Split_three "."%char).
    now repeat split.
  - intros H. apply (Split_three "."%char) in H as (Ha & Hb & _ & Ht).
    now repeat split.
Qed.

(** The labels after a pointer record. *)
Lemma PTR_labels (acc : Acc) (h : RR_Header) (ptr : string) :
  let acc' := assemble_RR IP_String acc (PTR h ptr) in
  (forall a b,
      three_local (Name h) a b ->
      service acc' = strings.Trim a "_" /\ proto acc' = strings.Trim b "_") /\
  ((~ exists a b, three_local (Name h) a b) ->
   service acc' = service acc /\ proto acc' = proto acc).
Proof.
  pose proof (subject_test (Name h)) as H. cbv zeta in H.
  destruct H as [H1 H2]. unfold assemble_RR. cbv zeta.
  set (svcParts := strings.Split (strings.Trim (Name h) ".") ".") in *.
  split.
  - intros a b Hs. rewrite (H1 a b Hs). simpl. split; reflexivity.
  - intros Hno.
    destruct ((length svcParts =? 3)%nat
              && String.eqb (nth 2 svcParts "") "local") eqn:E;
      [|split; reflexivity].
    exfalso. apply Hno.
    apply three_parts_local in E as (a & b & E).
    exists a, b. rewrite E in H2. now apply H2.
Qed.

(** The instance name after a pointer record. *)
Lemma PTR_name (acc : Acc) (h : RR_Header) (ptr : string) :
  name (assemble_RR IP_String acc (PTR h ptr))
  = strings.TrimSuffix ptr ("." ++ Name h).
Proof. unfold assemble_RR. cbv zeta. now destruct (_ && _). Qed.

(** The other fields after a pointer record. *)
Lemma PTR_others (acc : Acc) (h : RR_Header) (ptr : string) :
  host (assemble_RR IP_String acc (PTR h ptr)) = host acc /\
  addrs (assemble_RR IP_String acc (PTR h ptr)) = addrs acc.
Proof. unfold assemble_RR. cbv zeta. now destruct (_ && _). Qed.

(** C4. After a pointer record, the service and protocol labels are
    assigned exactly when the subject name, its leading and trailing dots
    dropped, is three dot-free components joined by dots of which the
    last is [local]; the components may be empty.  The labels are then the
    first and the second component, each with its leading and trailing
    underscores dropped.  For any other subject the labels are as they
    were. *)
Theorem C4_labels_of_pointer_record
    (acc : Acc) (h : RR_Header) (ptr : string) :
  let acc' := assemble_RR IP_String acc (PTR h ptr) in
  (forall a b,
      three_local (Name h) a b ->
      service acc' = strings.Trim a "_" /\ proto acc' = strings.Trim b "_") /\
  ((~ exists a b, three_local (Name h) a b) ->
   service acc' = service acc /\ proto acc' = proto acc).
Proof. apply PTR_labels. Qed.

(** C6. After a pointer record, the instance name is the target of the
    record without the suffix made of a dot and the whole subject name,
    trailing dot included, when the target ends with it, and the target
    itself when it does not.  For a target that is a leaf label, a dot
    and the subject name, the instance name is the leaf label. *)
Theorem C6_instance_name_of_pointer_record
    (acc : Acc) (h : RR_Header) (ptr : string) :
  let name' := name (assemble_RR IP_String acc (PTR h ptr)) in
  (forall leaf, ptr = (leaf ++ "." ++ Name h)%string -> name' = leaf) /\
  (strings.HasSuffix ptr ("." ++ Name h) = true ->
   ptr = (name' ++ "." ++ Name h)%string) /\
  (strings.HasSuffix ptr ("." ++ Name h) = false -> name' = ptr).
Proof.
  cbv zeta. rewrite PTR_name. repeat split.
  - intros leaf ->. apply TrimSuffix_app.
  - intros H. now apply HasSuffix_true in H.
  - intros H. unfold strings.TrimSuffix. now rewrite H.
Qed.

(** C5. A response that is not an answer to the services query and holds
    the pointer record with subject [_http._tcp.local.] and target
    [My Printer._http._tcp.local.], the service-location record with
    target [printer.local.] and port 631, and the address record
    192.168.1.5, prints the line [tcp], [http], [printer.local:631],
    [My Printer], separated by tabs and ended by a newline: the protocol
    label is [tcp] and the service label is [http]. *)
Theorem C5_printer_example
    (id : N) buf addr (msg : Msg) (st : State) :
  Unpack buf = Ok msg -> Id msg <> id ->
  Answer msg ++ Extra msg = ex_printer_records ->
  iteration' id (Datagram buf addr) st
  = (Ok Continue,
     {| services := services st; sent := sent st;
        stdout := stdout st ++
                  [("tcp" ++ tab ++ "http" ++ tab ++ "printer.local:631"
                    ++ tab ++ "My Printer" ++ newline)%string];
        logged := logged st; ids_drawn := ids_drawn st |}).
Proof.
  intros Hu Hid Hr. rewrite (iteration_service id buf addr msg st Hu Hid).
  unfold line_of, assemble. rewrite Hr. reflexivity.
Qed.

(** The labels are kept by records that are not pointer records with a
    subject of the three-component shape. *)
Lemma fold_labels_kept (post : list RR) :
  (forall h p, PTR h p ∈ post -> ~ exists a b, three_local (Name h) a b) ->
  forall acc,
    service (fold_left (assemble_RR IP_String) post acc) = service acc /\
    proto (fold_left (assemble_RR IP_String) post acc) = proto acc.
Proof.
  induction post as [|r post IH]; intros H acc; [now split|].
  simpl fold_left.
  destruct (IH (fun h p Hin => H h p (list_elem_of_further _ _ _ Hin))
               (assemble_RR IP_String acc r)) as [H1 H2].
  rewrite H1, H2.
  destruct r as [h p| | | | |]; try (now split).
  apply PTR_labels, (H h p). constructor.
Qed.

(** Every address record adds its text to the addresses. *)
Lemma fold_addrs (rs : list RR) :
  forall acc,
    addrs (fold_left (assemble_RR IP_String) rs acc)
    = addrs acc ++ address_texts IP_String rs.
Proof.
  induction rs as [|r rs IH]; intros acc; simpl fold_left.
  - simpl. now rewrite app_nil_r.
  - rewrite IH.
    destruct r as [h p| | | | |]; simpl address_texts.
    + now destruct (PTR_others acc h p) as [_ ->].
    + reflexivity.
    + simpl addrs. now rewrite <- app_assoc.
    + simpl addrs. now rewrite <- app_assoc.
    + reflexivity.
    + reflexivity.
Qed.

(** C9. Over the answers followed by the supplemental records of a
    response: the instance name is that of the last pointer record; the
    service and protocol labels are those of the last pointer record
    whose subject has the three-component shape, a later pointer record
    with another subject leaving them as they are; the host and port are
    those of the last service-location record; and the addresses are the
    texts of all the address records, in order. *)
Theorem C9_last_record_of_each_kind (msg : Msg) :
  let rs := Answer msg ++ Extra msg in
  let acc := assemble IP_String msg in
  (forall pre h p post,
      rs = pre ++ PTR h p :: post ->
      forallb (fun a => negb (is_PTR a)) post = true ->
      name acc = strings.TrimSuffix p ("." ++ Name h)) /\
  (forall pre h p post a b,
      rs = pre ++ PTR h p :: post ->
      three_local (Name h) a b ->
      (forall h' p', PTR h' p' ∈ post ->
                     ~ exists a' b', three_local (Name h') a' b') ->
      service acc = strings.Trim a "_" /\ proto acc = strings.Trim b "_") /\
  (forall pre h pr w port target post,
      rs = pre ++ SRV h pr w port target :: post ->
      forallb (fun a => negb (is_SRV a)) post = true ->
      host acc
      = (strings.TrimSuffix target "." ++ ":" ++ itoa port)%string) /\
  addrs acc = address_texts IP_String rs.
Proof.
  cbv zeta. unfold assemble. split; [|split; [|split]].
  - intros pre h p post -> Hpost.
    rewrite fold_left_app. cbn [fold_left].
    destruct (fold_no_PTR post Hpost
                (assemble_RR IP_String
                   (fold_left (assemble_RR IP_String) pre zero_Acc)
                   (PTR h p))) as (-> & _).
    apply PTR_name.
  - intros pre h p post a b -> Hshape Hpost.
    rewrite fold_left_app. cbn [fold_left].
    destruct (fold_labels_kept post Hpost
                (assemble_RR IP_String
                   (fold_left (assemble_RR IP_String) pre zero_Acc)
                   (PTR h p))) as (-> & ->).
    exact (proj1 (PTR_labels _ h p) a b Hshape).
  - intros pre h pr w port target post -> Hpost.
    rewrite fold_left_app. cbn [fold_left]. now rewrite fold_no_SRV.
  - apply (fold_addrs _ zero_Acc).
Qed.

End Properties.

(** ** The properties on the example run *)

Lemma C1_witness :
  Pack_never_fails ex_Pack /\
  WriteTo_never_fails ex_WriteTo_ok /\
  forallb is_Datagram ex_inputs = true /\
  exists st,
    run ex_Pack ex_Unpack ex_IP_String ex_Id_draw None ex_WriteTo_ok
      ex_inputs = (Ok Waiting, st) /\
    queries_for "_http._tcp.local." (tl (sent st)) = 1 /\
    queries_for "_ipp._tcp.local." (tl (sent st)) = 1 /\
    queries_for "_services._dns-sd._udp.local." (tl (sent st)) = 0.
Proof.
  assert (HP : Pack_never_fails ex_Pack) by (intros m; eexists; reflexivity).
  assert (HW : WriteTo_never_fails ex_WriteTo_ok) by (intros k b; reflexivity).
  assert (Hd : forallb is_Datagram ex_inputs = true) by reflexivity.
  repeat split; try assumption.
  destruct (proj2 (C1_one_followup_per_service_type
                     ex_Pack ex_Unpack ex_IP_String ex_Id_draw ex_WriteTo_ok
                     ex_inputs) HP HW Hd) as (st & E & H1 & H0 & _).
  exists st. repeat split.
  - exact E.
  - apply H1. vm_compute. repeat constructor.
  - apply H1. vm_compute. repeat constructor.
  - apply H0. vm_compute. intros H.
    repeat (apply elem_of_cons in H as [H|H]; [discriminate|]).
    now apply elem_of_nil in H.
Defined.

Lemma C2_witness :
  ex_Unpack [Byte.x01] = Ok (ex_enum_msg 7) /\
  Id (ex_enum_msg 7) = 7%N /\
  stdout
    (iteration ex_Pack ex_Unpack ex_IP_String ex_Id_draw ex_WriteTo_ok 7
       (Datagram [Byte.x01] ex_addr) init_State).2
  = stdout init_State.
Proof.
  split; [reflexivity|]. split; [reflexivity|].
  apply (C2_enumeration_response_prints_nothing
           ex_Pack ex_Unpack ex_IP_String ex_Id_draw ex_WriteTo_ok
           7 [Byte.x01] ex_addr (ex_enum_msg 7) init_State);
    reflexivity.
Defined.

Lemma C3_witness :
  (ex_Unpack [Byte.x02] = Ok (ex_printer_msg 9) /\
   Id (ex_printer_msg 9) <> 7%N /\
   stdout
     (iteration ex_Pack ex_Unpack ex_IP_String ex_Id_draw ex_WriteTo_ok 7
        (Datagram [Byte.x02] ex_addr) init_State).2
   = [("tcp" ++ tab ++ "http" ++ tab ++ "printer.local:631" ++ tab
       ++ "My Printer" ++ newline)%string]) /\
  (forallb (fun a => negb (is_PTR a))
     (Answer (ex_address_msg 9) ++ Extra (ex_address_msg 9)) = true /\
   forallb (fun a => negb (is_SRV a))
     (Answer (ex_address_msg 9) ++ Extra (ex_address_msg 9)) = true /\
   line_of ex_IP_String (ex_address_msg 9)
   = ("" ++ tab ++ "" ++ tab ++ "" ++ tab ++ "" ++ newline)%string) /\
  stdout
    (loop ex_Pack ex_Unpack ex_IP_String ex_Id_draw ex_WriteTo_ok 7
       [Datagram [Byte.x02] ex_addr; Datagram [Byte.x03] ex_addr]
       init_State).2
  = [line_of ex_IP_String (ex_printer_msg 9);
     line_of ex_IP_String (ex_two_PTR_msg 9)].
Proof.
  assert (Hid : forall m : Msg, Id m = 9%N -> Id m <> 7%N)
    by (intros m -> ; discriminate).
  destruct (C3_one_line_per_service_response
              ex_Pack ex_Unpack ex_IP_String ex_Id_draw ex_WriteTo_ok)
    as (Hline & Hempty & Horder).
  split; [|split].
  - split; [reflexivity|]. split; [apply Hid; reflexivity|].
    rewrite (Hline 7%N [Byte.x02] ex_addr (ex_printer_msg 9) init_State
               eq_refl (Hid (ex_printer_msg 9) eq_refl)).
    reflexivity.
  - split; [reflexivity|]. split; [reflexivity|].
    destruct (Hempty (ex_address_msg 9)) as [HP HS].
    destruct (HP eq_refl) as (Hn & Hs & Hp). pose proof (HS eq_refl) as Hh.
    unfold line_of. rewrite Hn, Hs, Hp, Hh. reflexivity.
  - rewrite (Horder 7%N
               [Datagram [Byte.x02] ex_addr; Datagram [Byte.x03] ex_addr]
               [ex_printer_msg 9; ex_two_PTR_msg 9] init_State).
    + reflexivity.
    + constructor; [|constructor; [|constructor]].
      * exists [Byte.x02], ex_addr.
        split; [reflexivity|]. split; [reflexivity | now apply Hid].
      * exists [Byte.x03], ex_addr.
        split; [reflexivity|]. split; [reflexivity | now apply Hid].
Defined.

Lemma C7_witness :
  ex_Unpack [Byte.x00] = Err ex_decode_error /\
  loop ex_Pack ex_Unpack ex_IP_String ex_Id_draw ex_WriteTo_ok 7
    (Datagram [Byte.x00] ex_addr :: [Datagram [Byte.x02] ex_addr])
    init_State
  = (Ok Waiting,
     {| services := ∅; sent := [];
        stdout := [line_of ex_IP_String (ex_printer_msg 9)];
        logged := ["bad response from 192.168.1.5:5353: "
                   ++ "dns: overflow unpacking uint16"]%string;
        ids_drawn := 0 |}).
Proof.
  split; [reflexivity|].
  destruct (C7_malformed_datagram_logged_and_skipped
              ex_Pack ex_Unpack ex_IP_String ex_Id_draw ex_WriteTo_ok
              7%N [Byte.x00] ex_addr ex_decode_error
              [Datagram [Byte.x02] ex_addr] init_State eq_refl)
    as [_ Hloop].
  rewrite Hloop. reflexivity.
Defined.

Lemma C4_witness :
  three_local "_http._tcp.local." "_http" "_tcp" /\
  (~ exists a b, three_local "_printer._sub._http._tcp.local." a b) /\
  (let acc' := assemble_RR ex_IP_String zero_Acc
                 (PTR (hdr "_http._tcp.local." 12) "web._http._tcp.local.") in
   service acc' = "http" /\ proto acc' = "tcp") /\
  (let acc := {| name := "web"; host := ""; service := "http";
                 proto := "tcp"; addrs := [] |} in
   let acc' := assemble_RR ex_IP_String acc
                 (PTR (hdr "_printer._sub._http._tcp.local." 12)
                      "laser._printer._sub._http._tcp.local.") in
   service acc' = "http" /\ proto acc' = "tcp").
Proof.
  assert (H1 : three_local "_http._tcp.local." "_http" "_tcp")
    by (split; [reflexivity | split; reflexivity]).
  assert (H2 : ~ exists a b,
               three_local "_printer._sub._http._tcp.local." a b).
  { intros (a & b & H).
    apply (proj1 (subject_test "_printer._sub._http._tcp.local.")) in H.
    vm_compute in H. discriminate H. }
  split; [exact H1|]. split; [exact H2|]. split.
  - exact (proj1 (C4_labels_of_pointer_record ex_IP_String zero_Acc
                    (hdr "_http._tcp.local." 12) "web._http._tcp.local.")
             "_http" "_tcp" H1).
  - exact (proj2 (C4_labels_of_pointer_record ex_IP_String
                    {| name := "web"; host := ""; service := "http";
                       proto := "tcp"; addrs := [] |}
                    (hdr "_printer._sub._http._tcp.local." 12)
                    "laser._printer._sub._http._tcp.local.") H2).
Defined.

(** The labels differ from those of the rule of the specification: on a
    subject with an empty component the labels are assigned, and
    underscores are dropped at the end of a component as well. *)
Lemma C4_counterexample :
  let acc := {| name := ""; host := ""; service := "x"; proto := "y";
                addrs := [] |} in
  (let acc' := assemble_RR ex_IP_String acc (PTR (hdr "a..local." 12) "t") in
   (service acc', proto acc') = ("a", "") /\
   spec_PTR_labels acc "a..local." = ("x", "y")) /\
  (let acc' := assemble_RR ex_IP_String acc
                 (PTR (hdr "_http_._tcp.local." 12) "t") in
   (service acc', proto acc') = ("http", "tcp") /\
   spec_PTR_labels acc "_http_._tcp.local." = ("http_", "tcp")) /\
  ~ (forall acc h ptr,
        let acc' := assemble_RR ex_IP_String acc (PTR h ptr) in
        (service acc', proto acc') = spec_PTR_labels acc (Name h)).
Proof.
  cbv zeta. split; [|split].
  - split; reflexivity.
  - split; reflexivity.
  - intros H.
    specialize (H {| name := ""; host := ""; service := "x"; proto := "y";
                     addrs := [] |} (hdr "a..local." 12) "t").
    vm_compute in H. discriminate H.
Qed.

Lemma C5_witness :
  ex_Unpack [Byte.x02] = Ok (ex_printer_msg 9) /\
  Id (ex_printer_msg 9) <> 7%N /\
  Answer (ex_printer_msg 9) ++ Extra (ex_printer_msg 9)
  = ex_printer_records /\
  iteration ex_Pack ex_Unpack ex_IP_String ex_Id_draw ex_WriteTo_ok 7
    (Datagram [Byte.x02] ex_addr) init_State
  = (Ok Continue,
     {| services := ∅; sent := [];
        stdout := [("tcp" ++ tab ++ "http" ++ tab ++ "printer.local:631"
                    ++ tab ++ "My Printer" ++ newline)%string];
        logged := []; ids_drawn := 0 |}).
Proof.
  assert (Hid : Id (ex_printer_msg 9) <> 7%N) by discriminate.
  split; [reflexivity|]. split; [exact Hid|]. split; [reflexivity|].
  exact (C5_printer_example ex_Pack ex_Unpack ex_IP_String ex_Id_draw
           ex_WriteTo_ok 7%N [Byte.x02] ex_addr (ex_printer_msg 9)
           init_State eq_refl Hid eq_refl).
Defined.

(** The line printed for the example response is not the line with
    [http] as protocol label and an empty service label, with or without
    its newline. *)
Lemma C5_counterexample :
  Answer (ex_printer_msg 9) ++ Extra (ex_printer_msg 9)
  = ex_printer_records /\
  stdout
    (iteration ex_Pack ex_Unpack ex_IP_String ex_Id_draw ex_WriteTo_ok 7
       (Datagram [Byte.x02] ex_addr) init_State).2
  = [("tcp" ++ tab ++ "http" ++ tab ++ "printer.local:631" ++ tab
      ++ "My Printer" ++ newline)%string] /\
  stdout
    (iteration ex_Pack ex_Unpack ex_IP_String ex_Id_draw ex_WriteTo_ok 7
       (Datagram [Byte.x02] ex_addr) init_State).2
  <> [("http" ++ tab ++ "" ++ tab ++ "printer.local:631" ++ tab
       ++ "My Printer" ++ newline)%string] /\
  stdout
    (iteration ex_Pack ex_Unpack ex_IP_String ex_Id_draw ex_WriteTo_ok 7
       (Datagram [Byte.x02] ex_addr) init_State).2
  <> [("http" ++ tab ++ "" ++ tab ++ "printer.local:631" ++ tab
       ++ "My Printer")%string].
Proof.
  split; [reflexivity|]. split; [reflexivity|].
  split; vm_compute; discriminate.
Qed.

Lemma C6_witness :
  let h := hdr "_http._tcp.local." 12 in
  "My Printer._http._tcp.local." = ("My Printer" ++ "." ++ Name h)%string /\
  strings.HasSuffix "My Printer._http._tcp.local." ("." ++ Name h) = true /\
  strings.HasSuffix "mylocal." ("." ++ Name (hdr "local." 12)) = false /\
  name (assemble_RR ex_IP_String zero_Acc
          (PTR h "My Printer._http._tcp.local.")) = "My Printer" /\
  "My Printer._http._tcp.local."
  = (name (assemble_RR ex_IP_String zero_Acc
             (PTR h "My Printer._http._tcp.local."))
     ++ "." ++ Name h)%string /\
  name (assemble_RR ex_IP_String zero_Acc (PTR (hdr "local." 12) "mylocal."))
  = "mylocal.".
Proof.
  cbv zeta.
  destruct (C6_instance_name_of_pointer_record ex_IP_String zero_Acc
              (hdr "_http._tcp.local." 12) "My Printer._http._tcp.local.")
    as (Hleaf & Hsuf & _).
  destruct (C6_instance_name_of_pointer_record ex_IP_String zero_Acc
              (hdr "local." 12) "mylocal.") as (_ & _ & Hnot).
  split; [reflexivity|]. split; [reflexivity|]. split; [reflexivity|].
  split; [|split].
  - exact (Hleaf "My Printer" eq_refl).
  - exact (Hsuf eq_refl).
  - exact (Hnot eq_refl).
Defined.

(** The instance name is not the target without the subject name minus
    its trailing dot; nor is it, for every record, the target without the
    subject name and then without a trailing dot. *)
Lemma C6_counterexample :
  (name (assemble_RR ex_IP_String zero_Acc
           (PTR (hdr "_http._tcp.local." 12) "My Printer._http._tcp.local."))
   = "My Printer" /\
   spec_instance_name "My Printer._http._tcp.local." "_http._tcp.local."
   = "My Printer._http._tcp.local.") /\
  (name (assemble_RR ex_IP_String zero_Acc (PTR (hdr "local." 12) "mylocal."))
   = "mylocal." /\
   spec_instance_name' "mylocal." "local." = "my") /\
  ~ (forall acc h ptr,
        name (assemble_RR ex_IP_String acc (PTR h ptr))
        = spec_instance_name ptr (Name h)) /\
  ~ (forall acc h ptr,
        name (assemble_RR ex_IP_String acc (PTR h ptr))
        = spec_instance_name' ptr (Name h)).
Proof.
  split; [split; reflexivity|]. split; [split; reflexivity|]. split.
  - intros H.
    specialize (H zero_Acc (hdr "_http._tcp.local." 12)
                  "My Printer._http._tcp.local.").
    vm_compute in H. discriminate H.
  - intros H. specialize (H zero_Acc (hdr "local." 12) "mylocal.").
    vm_compute in H. discriminate H.
Qed.

Lemma C8_witness :
  (loop ex_Pack ex_Unpack ex_IP_String ex_Id_draw ex_WriteTo_ok 7
     [Datagram [Byte.x02] ex_addr] init_State
   = (Ok Waiting, ex_State_printer) /\
   Is_ErrClosed ex_closed_error = true /\
   Is_ErrClosed ex_io_error = false /\
   loop ex_Pack ex_Unpack ex_IP_String ex_Id_draw ex_WriteTo_ok 7
     ([Datagram [Byte.x02] ex_addr]
      ++ RecvErr ex_closed_error :: [Datagram [Byte.x03] ex_addr])
     init_State
   = (Ok Returned_nil, ex_State_printer) /\
   loop ex_Pack ex_Unpack ex_IP_String ex_Id_draw ex_WriteTo_ok 7
     ([Datagram [Byte.x02] ex_addr]
      ++ RecvErr ex_io_error :: [Datagram [Byte.x03] ex_addr])
     init_State
   = (Err ex_io_error, ex_State_printer)) /\
  (ex_WriteTo_fail 0 0 (list_byte_of_string "_http._tcp.local.")
   = Some ex_io_error /\
   (loop ex_Pack ex_Unpack ex_IP_String ex_Id_draw (ex_WriteTo_fail 0) 7
      ([] ++ Datagram [Byte.x01] ex_addr :: [Datagram [Byte.x02] ex_addr])
      init_State).1
   = Err ex_io_error /\
   (query ex_Pack ex_Unpack ex_IP_String ex_Id_draw None (ex_WriteTo_fail 0)
      "_services._dns-sd._udp.local." ex_inputs init_State).1
   = Err ex_io_error).
Proof.
  destruct (C8_closed_is_success_other_errors_abort
              ex_Pack ex_Unpack ex_IP_String ex_Id_draw ex_WriteTo_ok)
    as (Hclosed & Hio & _ & _).
  destruct (C8_closed_is_success_other_errors_abort
              ex_Pack ex_Unpack ex_IP_String ex_Id_draw (ex_WriteTo_fail 0))
    as (_ & _ & Hsend & Hfirst).
  split.
  - split; [reflexivity|]. split; [reflexivity|]. split; [reflexivity|].
    split.
    + exact (Hclosed 7%N [Datagram [Byte.x02] ex_addr] ex_closed_error
               [Datagram [Byte.x03] ex_addr] init_State ex_State_printer
               eq_refl eq_refl).
    + exact (Hio 7%N [Datagram [Byte.x02] ex_addr] ex_io_error
               [Datagram [Byte.x03] ex_addr] init_State ex_State_printer
               eq_refl eq_refl).
  - split; [reflexivity|]. split.
    + apply (Hsend 7%N [] [Byte.x01] ex_addr (ex_enum_msg 7)
               [Datagram [Byte.x02] ex_addr] []
               (hdr "_services._dns-sd._udp.local." 12) "_http._tcp.local."
               (skipn 1 (Answer (ex_enum_msg 7)))
               init_State init_State init_State
               (list_byte_of_string "_http._tcp.local.") ex_io_error);
        try reflexivity.
      apply not_elem_of_empty.
    + apply (Hfirst "_services._dns-sd._udp.local." ex_inputs init_State
               (list_byte_of_string "_services._dns-sd._udp.local.")
               ex_io_error); reflexivity.
Defined.

Lemma C9_witness :
  let msg := ex_two_PTR_msg 9 in
  let acc := assemble ex_IP_String msg in
  (Answer msg ++ Extra msg
   = [PTR (hdr "_http._tcp.local." 12) "web._http._tcp.local."]
     ++ PTR (hdr "_printer._sub._http._tcp.local." 12)
            "laser._printer._sub._http._tcp.local." :: [] /\
   three_local "_http._tcp.local." "_http" "_tcp" /\
   (forall h' p',
       PTR h' p' ∈ [PTR (hdr "_printer._sub._http._tcp.local." 12)
                        "laser._printer._sub._http._tcp.local."] ->
       ~ exists a' b', three_local (Name h') a' b')) /\
  name acc = "laser" /\ service acc = "http" /\ proto acc = "tcp" /\
  host (assemble ex_IP_String (ex_printer_msg 9)) = "printer.local:631" /\
  addrs (assemble ex_IP_String (ex_printer_msg 9)) = ["192.168.1.5"].
Proof.
  cbv zeta.
  assert (H1 : three_local "_http._tcp.local." "_http" "_tcp")
    by (split; [reflexivity | split; reflexivity]).
  assert (H2 : forall h' p',
             PTR h' p' ∈ [PTR (hdr "_printer._sub._http._tcp.local." 12)
                              "laser._printer._sub._http._tcp.local."] ->
             ~ exists a' b', three_local (Name h') a' b').
  { intros h' p' Hin (a & b & H).
    apply list_elem_of_singleton in Hin. injection Hin as -> ->.
    apply (proj1 (subject_test "_printer._sub._http._tcp.local.")) in H.
    vm_compute in H. discriminate H. }
  destruct (C9_last_record_of_each_kind ex_IP_String (ex_two_PTR_msg 9))
    as (Hname & Hlabels & _ & _).
  destruct (C9_last_record_of_each_kind ex_IP_String (ex_printer_msg 9))
    as (_ & _ & Hhost & Haddrs).
  split; [split; [reflexivity | split; [exact H1 | exact H2]]|].
  split; [|split; [|split; [|split]]].
  - exact (Hname [PTR (hdr "_http._tcp.local." 12) "web._http._tcp.local."]
             (hdr "_printer._sub._http._tcp.local." 12)
             "laser._printer._sub._http._tcp.local." [] eq_refl eq_refl).
  - exact (proj1 (Hlabels [] (hdr "_http._tcp.local." 12)
                    "web._http._tcp.local."
                    [PTR (hdr "_printer._sub._http._tcp.local." 12)
                         "laser._printer._sub._http._tcp.local."]
                    "_http" "_tcp" eq_refl H1 H2)).
  - exact (proj2 (Hlabels [] (hdr "_http._tcp.local." 12)
                    "web._http._tcp.local."
                    [PTR (hdr "_printer._sub._http._tcp.local." 12)
                         "laser._printer._sub._http._tcp.local."]
                    "_http" "_tcp" eq_refl H1 H2)).
  - exact (Hhost (firstn 1 ex_printer_records)
             (hdr "My Printer._http._tcp.local." 33) 0%N 0%N 631%N
             "printer.local." (skipn 2 ex_printer_records)
             eq_refl eq_refl).
  - rewrite Haddrs. reflexivity.
Defined.

(** The labels printed for a response whose last pointer record has a
    subject of five components are those of the pointer record before
    it, not those the last pointer record gives. *)
Lemma C9_counterexample :
  let msg := ex_two_PTR_msg 9 in
  let acc := assemble ex_IP_String msg in
  let last_PTR := PTR (hdr "_printer._sub._http._tcp.local." 12)
                      "laser._printer._sub._http._tcp.local." in
  last (Answer msg ++ Extra msg) = Some last_PTR /\
  (service acc, proto acc) = ("http", "tcp") /\
  (service (assemble_RR ex_IP_String zero_Acc last_PTR),
   proto (assemble_RR ex_IP_String zero_Acc last_PTR)) = ("", "") /\
  (service acc, proto acc)
  <> (service (assemble_RR ex_IP_String zero_Acc last_PTR),
      proto (assemble_RR ex_IP_String zero_Acc last_PTR)).
Proof.
  cbv zeta. split; [reflexivity|]. split; [reflexivity|].
  split; [reflexivity|]. vm_compute. discriminate.
Qed.

Lemma C10_witness :
  let st' := {| services := ({[ "_ipp._tcp.local." ]}
                             ∪ services ex_State_http);
                sent := sent ex_State_http; stdout := []; logged := [];
                ids_drawn := 2 |} in
  (range_Answer ex_Pack_fail ex_Id_draw ex_WriteTo_ok
     (firstn 1 (Answer (ex_enum_msg 7))) init_State = (Ok tt, ex_State_http) /\
   ("_ipp._tcp.local." ∉ services ex_State_http) /\
   ex_Pack_fail (question_Msg (ex_Id_draw 1) "_ipp._tcp.local.")
   = Err ex_pack_error) /\
  loop ex_Pack_fail ex_Unpack ex_IP_String ex_Id_draw ex_WriteTo_ok 7
    ([] ++ Datagram [Byte.x01] ex_addr :: [Datagram [Byte.x02] ex_addr])
    init_State
  = (Err ex_pack_error, st') /\
  "_ipp._tcp.local." ∈ services st' /\
  services st' <> services ex_State_http /\
  sent st' = sent ex_State_http.
Proof.
  cbv zeta.
  assert (Hnew : "_ipp._tcp.local." ∉ services ex_State_http).
  { intros Hin. vm_compute in Hin. discriminate Hin. }
  split; [split; [reflexivity | split; [exact Hnew | reflexivity]]|].
  destruct (C10_services_changed_before_failure
              ex_Pack_fail ex_Unpack ex_IP_String ex_Id_draw ex_WriteTo_ok
              7%N [] [Byte.x01] ex_addr (ex_enum_msg 7)
              [Datagram [Byte.x02] ex_addr]
              (firstn 1 (Answer (ex_enum_msg 7)))
              (hdr "_services._dns-sd._udp.local." 12) "_ipp._tcp.local."
              (skipn 2 (Answer (ex_enum_msg 7)))
              init_State init_State ex_State_http ex_pack_error
              eq_refl eq_refl eq_refl eq_refl eq_refl Hnew
              (or_introl eq_refl))
    as (st' & Hloop & HA & Hin & Hsv & Hne & Hsent).
  assert (Est : st' = {| services := ({[ "_ipp._tcp.local." ]}
                                      ∪ services ex_State_http);
                         sent := sent ex_State_http; stdout := [];
                         logged := []; ids_drawn := 2 |}).
  { assert (E : (Err ex_pack_error, st')
                = loop ex_Pack_fail ex_Unpack ex_IP_String ex_Id_draw
                    ex_WriteTo_ok 7
                    ([] ++ Datagram [Byte.x01] ex_addr
                        :: [Datagram [Byte.x02] ex_addr]) init_State)
      by (symmetry; exact Hloop).
    injection E as E. exact E. }
  rewrite <- Est.
  split; [exact Hloop|]. split; [exact Hin|]. split; [exact Hne | exact Hsent].
Defined.

(** ** Further properties of [query] and [main] *)

Section MoreProperties.

Variable Pack : Msg -> result (list Byte.byte).
Variable Unpack : list Byte.byte -> result Msg.
Variable IP_String : IP -> string.
Variable Id_draw : nat -> N.
Variable WriteTo_err : nat -> list Byte.byte -> option error.

Local Abbreviation range_Answer' := (range_Answer Pack Id_draw WriteTo_err).
Local Abbreviation iteration' :=
  (iteration Pack Unpack IP_String Id_draw WriteTo_err).
Local Abbreviation loop' := (loop Pack Unpack IP_String Id_draw WriteTo_err).
Local Abbreviation query' :=
  (fun e => query Pack Unpack IP_String Id_draw e WriteTo_err).
Local Abbreviation run' :=
  (fun e => run Pack Unpack IP_String Id_draw e WriteTo_err).
Local Abbreviation main' :=
  (fun e => main Pack Unpack IP_String Id_draw e WriteTo_err).

(** Writing one more packet of the right shape keeps [sent_inv]. *)
Lemma sent_inv_snoc (st : State) (ptr : string) (buf : list Byte.byte)
    (sv : gset string) (out lg : list string) :
  sent_inv Pack Id_draw st ->
  ids_drawn st = length (sent st) ->
  Pack (question_Msg (Id_draw (ids_drawn st)) ptr) = Ok buf ->
  sent_inv Pack Id_draw
    {| services := sv;
       sent := sent st ++
               [{| pkt_msg := question_Msg (Id_draw (ids_drawn st)) ptr;
                   pkt_bytes := buf; pkt_dest := mdnsAddr4 |}];
       stdout := out; logged := lg; ids_drawn := S (ids_drawn st) |}.
Proof.
  intros Hinv Hids HP i p Hi. simpl in Hi.
  destruct (decide (i < length (sent st))) as [Hlt|Hge].
  - rewrite lookup_app_l in Hi by assumption. now apply Hinv.
  - rewrite lookup_app_r in Hi by lia.
    destruct (i - length (sent st)) as [|n] eqn:En; [|discriminate].
    injection Hi as <-. simpl. split.
    + split; [reflexivity|]. split; [exact HP|].
      eexists _, _. reflexivity.
    + f_equal. lia.
Qed.

(** The loop over the answers keeps [sent_inv]; when it ends without
    error, as many identifiers have been drawn as datagrams sent. *)
Lemma range_Answer_sent_inv (answers : list RR) :
  forall st,
    sent_inv Pack Id_draw st ->
    ids_drawn st = length (sent st) ->
    sent_inv Pack Id_draw (range_Answer' answers st).2 /\
    (forall v, (range_Answer' answers st).1 = Ok v ->
               ids_drawn (range_Answer' answers st).2
               = length (sent (range_Answer' answers st).2)).
Proof.
  induction answers as [|a rest IH]; intros st Hinv Hids; [now split|].
  destruct (is_PTR a) eqn:Ha.
  - destruct a; try discriminate. rewrite range_Answer_PTR.
    destruct (bool_decide (Ptr ∈ services st)); [now apply IH|].
    cbv zeta. destruct (Pack _) as [buf|e] eqn:EP.
    + destruct (WriteTo_err _ _).
      * split; [exact Hinv | discriminate].
      * apply IH; [now apply sent_inv_snoc|].
        simpl. rewrite length_app. simpl. lia.
    + split; [exact Hinv | discriminate].
  - rewrite range_Answer_other by assumption. now apply IH.
Qed.

(** So does an iteration of the loop of [query]. *)
Lemma iteration_sent_inv (id : N) (r : recv) (st : State) :
  sent_inv Pack Id_draw st ->
  ids_drawn st = length (sent st) ->
  sent_inv Pack Id_draw (iteration' id r st).2 /\
  (forall v, (iteration' id r st).1 = Ok v ->
             ids_drawn (iteration' id r st).2
             = length (sent (iteration' id r st).2)).
Proof.
  intros Hinv Hids. destruct r as [buf addr|err].
  - destruct (Unpack buf) as [msg|e] eqn:Eu.
    + destruct (N.eqb_spec (Id msg) id) as [Hid|Hid].
      * rewrite (iteration_enum _ _ _ _ _ id buf addr msg st Eu Hid).
        destruct (range_Answer_sent_inv (Answer msg) st Hinv Hids)
          as [H1 H2].
        destruct (range_Answer' (Answer msg) st) as [[[]|e] st'];
          simpl in *; split; try assumption; try discriminate.
        intros _ _. now apply (H2 tt).
      * rewrite (iteration_service _ _ _ _ _ id buf addr msg st Eu Hid).
        now split.
    + rewrite (iteration_bad _ _ _ _ _ id buf addr e st Eu). now split.
  - simpl. destruct (Is_ErrClosed err); now split.
Qed.

(** So does the loop. *)
Lemma loop_sent_inv (id : N) (inputs : list recv) :
  forall st,
    sent_inv Pack Id_draw st ->
    ids_drawn st = length (sent st) ->
    sent_inv Pack Id_draw (loop' id inputs st).2.
Proof.
  induction inputs as [|r rest IH]; intros st Hinv Hids; [exact Hinv|].
  rewrite loop_cons.
  destruct (iteration_sent_inv id r st Hinv Hids) as [H1 H2].
  destruct (iteration' id r st) as [[[]|e] st']; simpl in *;
    try assumption.
  apply IH; [assumption | now apply (H2 Continue)].
Qed.

(** In every run, [sent_inv] holds of the state reached. *)
Lemma run_sent_inv (lp : option error) (inputs : list recv) :
  sent_inv Pack Id_draw (run' lp inputs).2.
Proof.
  assert (H0 : sent_inv Pack Id_draw init_State)
    by (intros i p Hi; discriminate Hi).
  unfold run, query. destruct lp as [e|]; [exact H0|].
  unfold bind. simpl.
  destruct (Pack _) as [buf|e] eqn:EP; [|intros i p Hi; discriminate Hi].
  simpl. destruct (WriteTo_err _ _); [intros i p Hi; discriminate Hi|].
  simpl. apply loop_sent_inv; [|reflexivity].
  apply (sent_inv_snoc init_State _ buf ∅ [] [] H0 eq_refl EP).
Qed.

Lemma grows_refl (st : State) : grows st st.
Proof. repeat split; reflexivity. Qed.

Lemma grows_trans (st1 st2 st3 : State) :
  grows st1 st2 -> grows st2 st3 -> grows st1 st3.
Proof.
  intros (A1 & B1 & C1 & D1 & E1) (A2 & B2 & C2 & D2 & E2).
  repeat split; try (etransitivity; eassumption); lia.
Qed.

(** The loop over the answers takes nothing back. *)
Lemma range_Answer_grows (answers : list RR) :
  forall st, grows st (range_Answer' answers st).2.
Proof.
  induction answers as [|a rest IH]; intros st; [apply grows_refl|].
  destruct (is_PTR a) eqn:Ha.
  - destruct a; try discriminate. rewrite range_Answer_PTR.
    destruct (bool_decide (Ptr ∈ services st)); [apply IH|].
    assert (H1 : grows st
              {| services := {[ Ptr ]} ∪ services st; sent := sent st;
                 stdout := stdout st; logged := logged st;
                 ids_drawn := S (ids_drawn st) |}).
    { repeat split; simpl; try reflexivity; [set_solver | lia]. }
    cbv zeta. destruct (Pack _) as [buf|e]; [|exact H1].
    destruct (WriteTo_err _ _); [exact H1|].
    eapply grows_trans; [|apply IH].
    repeat split; simpl; try reflexivity; [set_solver | | lia].
    now apply prefix_app_r.
  - rewrite range_Answer_other by assumption. apply IH.
Qed.

(** Nor does an iteration of the loop of [query]. *)
Lemma iteration_grows (id : N) (r : recv) (st : State) :
  grows st (iteration' id r st).2.
Proof.
  destruct r as [buf addr|err].
  - destruct (Unpack buf) as [msg|e] eqn:Eu.
    + destruct (N.eqb_spec (Id msg) id) as [Hid|Hid].
      * rewrite (iteration_enum _ _ _ _ _ id buf addr msg st Eu Hid).
        pose proof (range_Answer_grows (Answer msg) st) as H.
        now destruct (range_Answer' (Answer msg) st) as [[] st'].
      * rewrite (iteration_service _ _ _ _ _ id buf addr msg st Eu Hid).
        repeat split; simpl; try reflexivity. now apply prefix_app_r.
    + rewrite (iteration_bad _ _ _ _ _ id buf addr e st Eu).
      repeat split; simpl; try reflexivity. now apply prefix_app_r.
  - simpl. destruct (Is_ErrClosed err); apply grows_refl.
Qed.

(** Nor does the loop. *)
Lemma loop_grows (id : N) (inputs : list recv) :
  forall st, grows st (loop' id inputs st).2.
Proof.
  induction inputs as [|r rest IH]; intros st; [apply grows_refl|].
  rewrite loop_cons. pose proof (iteration_grows id r st) as H.
  destruct (iteration' id r st) as [[[]|e] st']; simpl in H;
    try exact H.
  eapply grows_trans; [exact H | apply IH].
Qed.

(** X1. In every run, whatever is received and whatever fails, each
    datagram written goes to the IPv4 group 224.0.0.251:5353, is the
    packed form of its message, and its message is a single question of
    type PTR whose class is IN with the unicast-response bit set; the
    first datagram written asks for the name [main] passes. *)
Theorem X1_every_datagram_is_a_unicast_PTR_query
    (lp : option error) (inputs : list recv) :
  let st := (run' lp inputs).2 in
  Forall (query_packet Pack) (sent st) /\
  (forall p, head (sent st) = Some p ->
             query_names [p] = ["_services._dns-sd._udp.local."]) /\
  mdnsAddr4 = "224.0.0.251:5353" /\
  N.testbit 32769 15 = true /\ N.land 32769 32767 = ClassINET /\
  TypePTR = 12%N.
Proof.
  cbv zeta. split; [|split; [|now repeat split]].
  - apply Forall_lookup. intros i p Hi.
    now apply (run_sent_inv lp inputs i p).
  - unfold run, query. destruct lp as [e|]; [discriminate|].
    unfold bind. simpl.
    destruct (Pack _) as [buf|e]; [|discriminate]. simpl.
    destruct (WriteTo_err _ _); [discriminate|]. simpl.
    match goal with |- context [loop' ?i inputs ?s] =>
      destruct (loop_grows i inputs s) as (_ & [k Hk] & _) end.
    rewrite Hk. simpl. intros p [= <-]. reflexivity.
Qed.

(** X2. In every run the [i]-th datagram written carries the [i]-th
    identifier drawn from [dns.Id]: no identifier is drawn for a datagram
    that is not written before the next is drawn, and none is used
    twice over. *)
Theorem X2_identifiers_in_draw_order
    (lp : option error) (inputs : list recv) (i : nat) (p : packet) :
  sent (run' lp inputs).2 !! i = Some p ->
  Id (pkt_msg p) = Id_draw i.
Proof. intros Hi. now apply (run_sent_inv lp inputs i p). Qed.

(** X3. From any state and on any inputs, whatever the outcome, the loop
    of [query] takes nothing back: every name in [services] stays there,
    and what was sent, printed and logged before is a prefix of what is
    sent, printed and logged after. *)
Theorem X3_loop_takes_nothing_back
    (id : N) (inputs : list recv) (st : State) :
  let st' := (loop' id inputs st).2 in
  services st ⊆ services st' /\
  sent st `prefix_of` sent st' /\
  stdout st `prefix_of` stdout st' /\
  logged st `prefix_of` logged st' /\
  ids_drawn st <= ids_drawn st'.
Proof. apply loop_grows. Qed.

(** The loop is still waiting only when every receive gave a
    datagram. *)
Lemma loop_Waiting (id : N) (inputs : list recv) :
  forall st st',
    loop' id inputs st = (Ok Waiting, st') ->
    forallb is_Datagram inputs = true.
Proof.
  induction inputs as [|r rest IH]; intros st st' H; [reflexivity|].
  rewrite loop_cons in H. simpl.
  destruct r as [buf addr|err].
  - destruct (iteration' id (Datagram buf addr) st) as [[[]|e] st1];
      try discriminate. now apply (IH st1 st').
  - simpl in H. destruct (Is_ErrClosed err); discriminate.
Qed.

(** An iteration on a datagram never makes [query] return [nil]. *)
Lemma iteration_Datagram_not_nil (id : N) buf addr (st st' : State) :
  iteration' id (Datagram buf addr) st <> (Ok Return_nil, st').
Proof.
  destruct (Unpack buf) as [msg|e] eqn:Eu.
  - destruct (N.eqb_spec (Id msg) id) as [Hid|Hid].
    + rewrite (iteration_enum _ _ _ _ _ id buf addr msg st Eu Hid).
      destruct (range_Answer' (Answer msg) st) as [[] ?]; discriminate.
    + rewrite (iteration_service _ _ _ _ _ id buf addr msg st Eu Hid).
      discriminate.
  - rewrite (iteration_bad _ _ _ _ _ id buf addr e st Eu). discriminate.
Qed.

(** The loop returns [nil] only at a receive that failed with
    [net.ErrClosed]. *)
Lemma loop_Returned_nil (id : N) (inputs : list recv) :
  forall st st',
    loop' id inputs st = (Ok Returned_nil, st') ->
    exists pre err rest,
      inputs = pre ++ RecvErr err :: rest /\
      Is_ErrClosed err = true /\
      loop' id pre st = (Ok Waiting, st').
Proof.
  induction inputs as [|r rest IH]; intros st st' H; [discriminate|].
  rewrite loop_cons in H.
  destruct r as [buf addr|err].
  - pose proof (iteration_Datagram_not_nil id buf addr st) as Hnot.
    destruct (iteration' id (Datagram buf addr) st) as [[[]|e] st1] eqn:Ei;
      try discriminate.
    + destruct (IH st1 st' H) as (pre & err & rest' & -> & Hc & Hpre).
      exists (Datagram buf addr :: pre), err, rest'.
      repeat split; try assumption.
      rewrite loop_cons, Ei. exact Hpre.
    + exfalso. now apply (Hnot st1).
  - simpl in H. destruct (Is_ErrClosed err) eqn:Hc; [|discriminate].
    injection H as <-. exists [], err, rest. now repeat split.
Qed.

(** X4. The loop of [query] returns [nil] only when a receive failed
    with [net.ErrClosed], every receive before it having given a
    datagram that was handled without error; and while it has not
    returned, every receive has given a datagram.  No datagram, decodable
    or not, ends the loop without an error. *)
Theorem X4_loop_ends_only_at_a_closed_receive
    (id : N) (inputs : list recv) (st st' : State) :
  (loop' id inputs st = (Ok Returned_nil, st') ->
   exists pre err rest,
     inputs = pre ++ RecvErr err :: rest /\
     Is_ErrClosed err = true /\
     forallb is_Datagram pre = true /\
     loop' id pre st = (Ok Waiting, st')) /\
  (loop' id inputs st = (Ok Waiting, st') ->
   forallb is_Datagram inputs = true).
Proof.
  split.
  - intros H. destruct (loop_Returned_nil id inputs st st' H)
      as (pre & err & rest & E & Hc & Hpre).
    exists pre, err, rest. repeat split; try assumption.
    now apply (loop_Waiting id pre st st').
  - apply loop_Waiting.
Qed.

(** An error of the loop over the answers is an error of the encoder or
    of a write. *)
Lemma range_Answer_error_origin (answers : list RR) :
  forall st st' e,
    range_Answer' answers st = (Err e, st') ->
    (exists m, Pack m = Err e) \/ (exists k buf, WriteTo_err k buf = Some e).
Proof.
  induction answers as [|a rest IH]; intros st st' e H; [discriminate|].
  destruct (is_PTR a) eqn:Ha.
  - destruct a; try discriminate. rewrite range_Answer_PTR in H.
    destruct (bool_decide (Ptr ∈ services st)); [now apply (IH st st')|].
    cbv zeta in H. destruct (Pack _) as [buf|e0] eqn:EP.
    + destruct (WriteTo_err _ _) as [e0|] eqn:EW.
      * injection H as <- _. right. eauto.
      * now apply IH in H.
    + injection H as <- _. left. eauto.
  - rewrite range_Answer_other in H by assumption. now apply (IH st st').
Qed.

(** Where an error of the loop comes from. *)
Lemma loop_error_origin
    (id : N) (inputs : list recv) (st st' : State) (e : error) :
  loop' id inputs st = (Err e, st') ->
  (RecvErr e ∈ inputs /\ Is_ErrClosed e = false) \/
  (exists m, Pack m = Err e) \/
  (exists k buf, WriteTo_err k buf = Some e).
Proof.
  revert st. induction inputs as [|r rest IH]; intros st H; [discriminate|].
  rewrite loop_cons in H.
  destruct (iteration' id r st) as [[[]|e0] st1] eqn:Ei.
  - destruct (IH st1 H) as [[Hin Hc]|Hother]; [|now right].
    left. split; [now apply list_elem_of_further | exact Hc].
  - discriminate.
  - injection H as <- <-. destruct r as [buf addr|err].
    + right. destruct (Unpack buf) as [msg|e1] eqn:Eu.
      * destruct (N.eqb_spec (Id msg) id) as [Hid|Hid].
        -- rewrite (iteration_enum _ _ _ _ _ id buf addr msg st Eu Hid) in Ei.
           destruct (range_Answer' (Answer msg) st) as [[v|e1] s] eqn:Er;
             try discriminate.
           injection Ei as <- _.
           now apply (range_Answer_error_origin (Answer msg) st s).
        -- rewrite (iteration_service _ _ _ _ _ id buf addr msg st Eu Hid)
             in Ei. discriminate.
      * rewrite (iteration_bad _ _ _ _ _ id buf addr e1 st Eu) in Ei.
        discriminate.
    + simpl in Ei. destruct (Is_ErrClosed err) eqn:Hc; [discriminate|].
      injection Ei as <- _. left. split; [constructor | exact Hc].
Qed.

(** X5. An error the loop of [query] returns is an error that a receive,
    the encoder or a write gave: the error of a datagram that does not
    decode is never returned, and no error is made up. *)
Theorem X5_errors_returned_come_from_receive_encode_or_write
    (id : N) (inputs : list recv) (st st' : State) (e : error) :
  loop' id inputs st = (Err e, st') ->
  (RecvErr e ∈ inputs /\ Is_ErrClosed e = false) \/
  (exists m, Pack m = Err e) \/
  (exists k buf, WriteTo_err k buf = Some e).
Proof. apply loop_error_origin. Qed.

(** What a loop that is still waiting has printed and logged. *)
Lemma loop_Waiting_lines (id : N) (inputs : list recv) :
  forall st st',
    loop' id inputs st = (Ok Waiting, st') ->
    stdout st' = stdout st ++ service_lines Unpack IP_String id inputs /\
    logged st' = logged st ++ bad_lines Unpack inputs.
Proof.
  induction inputs as [|r rest IH]; intros st st' H.
  - injection H as <-. simpl. now rewrite !app_nil_r.
  - rewrite loop_cons in H. destruct r as [buf addr|err].
    + unfold service_lines, bad_lines. simpl flat_map.
      fold (service_lines Unpack IP_String id rest).
      fold (bad_lines Unpack rest).
      destruct (Unpack buf) as [msg|e] eqn:Eu.
      * destruct (N.eqb_spec (Id msg) id) as [Hid|Hid].
        -- rewrite (iteration_enum _ _ _ _ _ id buf addr msg st Eu Hid) in H.
           destruct (range_Answer_quiet Pack Id_draw WriteTo_err
                       (Answer msg) st) as [Ho Hl].
           destruct (range_Answer' (Answer msg) st) as [[v|e] st1];
             [|discriminate].
           simpl in Ho, Hl. destruct (IH st1 st' H) as [H1 H2].
           rewrite H1, H2, Ho, Hl. now split.
        -- rewrite (iteration_service _ _ _ _ _ id buf addr msg st Eu Hid)
             in H.
           destruct (IH _ st' H) as [H1 H2]. rewrite H1, H2. simpl.
           split; [now rewrite <- app_assoc | reflexivity].
      * rewrite (iteration_bad _ _ _ _ _ id buf addr e st Eu) in H.
        destruct (IH _ st' H) as [H1 H2]. rewrite H1, H2. simpl.
        split; [reflexivity | now rewrite <- app_assoc].
    + simpl in H. destruct (Is_ErrClosed err); discriminate.
Qed.

(** X6. On any mix of datagrams, as long as the loop of [query] has not
    returned, the lines printed are exactly the lines of the datagrams
    that decode to a message with another identifier than that of the
    services query, in the order received, and the lines logged are
    exactly those of the datagrams that do not decode, in the order
    received.  When the loop returns [nil], they are those of the
    datagrams received before the receive that failed. *)
Theorem X6_lines_printed_and_logged
    (id : N) (inputs : list recv) (st st' : State) :
  (loop' id inputs st = (Ok Waiting, st') ->
   stdout st' = stdout st ++ service_lines Unpack IP_String id inputs /\
   logged st' = logged st ++ bad_lines Unpack inputs) /\
  (loop' id inputs st = (Ok Returned_nil, st') ->
   exists pre err rest,
     inputs = pre ++ RecvErr err :: rest /\
     stdout st' = stdout st ++ service_lines Unpack IP_String id pre /\
     logged st' = logged st ++ bad_lines Unpack pre).
Proof.
  split.
  - apply loop_Waiting_lines.
  - intros H. destruct (loop_Returned_nil id inputs st st' H)
      as (pre & err & rest & E & _ & Hpre).
    exists pre, err, rest. split; [exact E|].
    now apply loop_Waiting_lines.
Qed.

(** When the loop over the answers ends without error, [services] holds
    the names asked for since the [k]-th datagram if it did before. *)
Lemma range_Answer_names (k : nat) (answers : list RR) :
  forall st st' v,
    k <= length (sent st) ->
    services st = list_to_set (query_names (drop k (sent st))) ->
    range_Answer' answers st = (Ok v, st') ->
    services st' = list_to_set (query_names (drop k (sent st'))).
Proof.
  induction answers as [|a rest IH]; intros st st' v Hk Hs H.
  - injection H as _ <-. exact Hs.
  - destruct (is_PTR a) eqn:Ha.
    + destruct a; try discriminate. rewrite range_Answer_PTR in H.
      destruct (bool_decide (Ptr ∈ services st));
        [now apply (IH st st' v)|].
      cbv zeta in H. destruct (Pack _) as [buf|e]; [|discriminate].
      destruct (WriteTo_err _ _); [discriminate|].
      apply (IH _ st' v) in H; [exact H | |]; simpl.
      * rewrite length_app. lia.
      * rewrite drop_app_le by assumption. rewrite query_names_app.
        rewrite list_to_set_app_L, <- Hs. simpl. clear. set_solver.
    + rewrite range_Answer_other in H by assumption.
      now apply (IH st st' v).
Qed.

(** The same for the loop of [query]. *)
Lemma loop_names (k : nat) (id : N) (inputs : list recv) :
  forall st st' v,
    k <= length (sent st) ->
    services st = list_to_set (query_names (drop k (sent st))) ->
    loop' id inputs st = (Ok v, st') ->
    services st' = list_to_set (query_names (drop k (sent st'))).
Proof.
  induction inputs as [|r rest IH]; intros st st' v Hk Hs H.
  - injection H as _ <-. exact Hs.
  - rewrite loop_cons in H.
    pose proof (iteration_grows id r st) as (_ & [ex Hex] & _).
    destruct r as [buf addr|err].
    + destruct (Unpack buf) as [msg|e] eqn:Eu.
      * destruct (N.eqb_spec (Id msg) id) as [Hid|Hid].
        -- rewrite (iteration_enum _ _ _ _ _ id buf addr msg st Eu Hid)
             in H, Hex.
           destruct (range_Answer' (Answer msg) st) as [[u|e] st1] eqn:Er;
             [|discriminate].
           simpl in Hex. apply (IH st1 st' v); [| |exact H].
           ++ rewrite Hex, length_app. lia.
           ++ now apply (range_Answer_names k (Answer msg) st st1 u).
        -- rewrite (iteration_service _ _ _ _ _ id buf addr msg st Eu Hid)
             in H.
           now apply (IH _ st' v) in H.
      * rewrite (iteration_bad _ _ _ _ _ id buf addr e st Eu) in H.
        now apply (IH _ st' v) in H.
    + simpl in H. destruct (Is_ErrClosed err); [|discriminate].
      injection H as _ <-. exact Hs.
Qed.

(** X7. In a run that has not failed, [services] holds exactly the names
    follow-up queries were sent for: a name is stored if and only if a
    query for it has been written. *)
Theorem X7_services_are_the_names_asked_for
    (lp : option error) (inputs : list recv) (v : status) (st : State)
    (x : string) :
  run' lp inputs = (Ok v, st) ->
  x ∈ services st <-> x ∈ query_names (tl (sent st)).
Proof.
  unfold run, query. destruct lp as [e|]; [discriminate|].
  unfold bind. simpl.
  destruct (Pack _) as [buf|e]; [|discriminate]. simpl.
  destruct (WriteTo_err _ _); [discriminate|]. simpl.
  intros H.
  match type of H with loop' ?i inputs ?s = _ =>
    pose proof (loop_names 1 i inputs s st v) as Hn;
    pose proof (loop_grows i inputs s) as (_ & [ex Hex] & _) end.
  rewrite H in Hex. simpl in Hex, Hn.
  rewrite (Hn ltac:(lia) eq_refl H), Hex. simpl.
  now rewrite elem_of_list_to_set.
Qed.

(** The loop over answers whose targets are all in [services] does
    nothing. *)
Lemma range_Answer_seen (answers : list RR) (st : State) :
  (forall x, x ∈ ptr_targets answers -> x ∈ services st) ->
  range_Answer' answers st = (Ok tt, st).
Proof.
  induction answers as [|a rest IH]; intros H; [reflexivity|].
  destruct (is_PTR a) eqn:Ha.
  - destruct a; try discriminate. rewrite range_Answer_PTR.
    rewrite bool_decide_eq_true_2 by (apply H; simpl; constructor).
    apply IH. intros x Hx. apply H. simpl. now constructor.
  - rewrite range_Answer_other by assumption. apply IH.
    intros x Hx. apply H. destruct a; try discriminate; exact Hx.
Qed.

(** After the loop over the answers has ended without error, their
    targets are all in [services]. *)
Lemma range_Answer_stores (answers : list RR) :
  forall st st' v,
    range_Answer' answers st = (Ok v, st') ->
    forall x, x ∈ ptr_targets answers -> x ∈ services st'.
Proof.
  induction answers as [|a rest IH]; intros st st' v H x Hx.
  - now apply elem_of_nil in Hx.
  - destruct (is_PTR a) eqn:Ha.
    + destruct a; try discriminate. rewrite range_Answer_PTR in H.
      simpl in Hx. apply elem_of_cons in Hx as [->|Hx].
      * destruct (bool_decide_reflect (Ptr ∈ services st)) as [Hin|Hin].
        -- pose proof (range_Answer_grows rest st) as (Hsub & _).
           rewrite H in Hsub. now apply Hsub.
        -- cbv zeta in H. destruct (Pack _) as [buf|e]; [|discriminate].
           destruct (WriteTo_err _ _); [discriminate|].
           match type of H with range_Answer' rest ?s = _ =>
             pose proof (range_Answer_grows rest s) as (Hsub & _) end.
           rewrite H in Hsub. apply Hsub. simpl. clear. set_solver.
      * destruct (bool_decide (Ptr ∈ services st));
          [now apply (IH st st' v H)|].
        cbv zeta in H. destruct (Pack _) as [buf|e]; [|discriminate].
        destruct (WriteTo_err _ _); [discriminate|].
        now apply (IH _ st' v H).
    + rewrite range_Answer_other in H by assumption.
      apply (IH st st' v H).
      destruct a; try discriminate; exact Hx.
Qed.

(** X8. An answer to the services query that is received again is a
    no-op: when it has been handled once without error, handling the
    same datagram once more, at once or after any other datagrams, sends
    nothing, draws no identifier and leaves the state as it is. *)
Theorem X8_enumeration_response_again_changes_nothing
    (id : N) buf addr addr' (msg : Msg) (between : list recv)
    (st st1 st2 : State) (v : status) :
  Unpack buf = Ok msg -> Id msg = id ->
  iteration' id (Datagram buf addr) st = (Ok Continue, st1) ->
  loop' id between st1 = (Ok v, st2) ->
  iteration' id (Datagram buf addr') st2 = (Ok Continue, st2).
Proof.
  intros Hu Hid H1 H2.
  rewrite (iteration_enum _ _ _ _ _ id buf addr msg st Hu Hid) in H1.
  rewrite (iteration_enum _ _ _ _ _ id buf addr' msg st2 Hu Hid).
  destruct (range_Answer' (Answer msg) st) as [[u|e] s] eqn:Er;
    [|discriminate].
  injection H1 as ->.
  rewrite range_Answer_seen; [reflexivity|].
  intros x Hx.
  pose proof (loop_grows id between st1) as (Hsub & _).
  rewrite H2 in Hsub. apply Hsub.
  now apply (range_Answer_stores (Answer msg) st st1 u Er).
Qed.

(** A pointer or service-location record acts alike on accumulators that
    agree on the printed fields, whatever the textual form of
    addresses. *)
Lemma assemble_RR_printed (IPS IPS' : IP -> string) (acc acc' : Acc)
    (a : RR) :
  printed acc = printed acc' ->
  is_PTR a || is_SRV a = true ->
  printed (assemble_RR IPS acc a) = printed (assemble_RR IPS' acc' a).
Proof.
  unfold printed. intros [= Hp Hs Hh Hn] Ha.
  destruct a; try discriminate; unfold assemble_RR; cbv zeta.
  - destruct (_ && _); simpl; congruence.
  - simpl. congruence.
Qed.

(** Any other record leaves the printed fields as they are. *)
Lemma assemble_RR_unprinted (IPS : IP -> string) (acc : Acc) (a : RR) :
  is_PTR a || is_SRV a = false ->
  printed (assemble_RR IPS acc a) = printed acc.
Proof. destruct a; try discriminate; reflexivity. Qed.

Lemma fold_printed (IPS IPS' : IP -> string) (rs : list RR) :
  forall acc acc',
    printed acc = printed acc' ->
    printed (fold_left (assemble_RR IPS) rs acc)
    = printed (fold_left (assemble_RR IPS')
                 (List.filter (fun a => is_PTR a || is_SRV a) rs) acc').
Proof.
  induction rs as [|a rs IH]; intros acc acc' H; [exact H|].
  cbn [fold_left List.filter].
  destruct (is_PTR a || is_SRV a) eqn:Ha.
  - cbn [fold_left]. apply IH. now apply assemble_RR_printed.
  - apply IH. now rewrite assemble_RR_unprinted.
Qed.

(** X9. The line printed for a response depends on its pointer and
    service-location records only: address records, text records and
    records of any other type can be taken out of the response, and the
    textual form of addresses changed, without changing the line.  The
    addresses collected are never printed. *)
Theorem X9_line_depends_on_PTR_and_SRV_only
    (IP_String' : IP -> string) (msg : Msg) :
  line_of IP_String msg
  = line_of IP_String'
      {| Id := Id msg; Questions := Questions msg;
         Answer := List.filter (fun a => is_PTR a || is_SRV a)
                     (Answer msg ++ Extra msg);
         Extra := [] |}.
Proof.
  unfold line_of, assemble. cbn [Answer Extra]. rewrite app_nil_r.
  pose proof (fold_printed IP_String IP_String' (Answer msg ++ Extra msg)
                zero_Acc zero_Acc eq_refl) as H.
  unfold printed in H. injection H as -> -> -> ->. reflexivity.
Qed.

(** Trimming on the left drops a prefix made of cutset bytes and stops at
    the first byte outside the cutset. *)
Lemma TrimLeft_all_app (cutset l m : string) :
  all_in cutset l = true ->
  strings.TrimLeft (l ++ m) cutset = strings.TrimLeft m cutset.
Proof.
  induction l as [|c l IH]; intros H; [reflexivity|].
  simpl in *. apply andb_true_iff in H as [Hc Hl].
  rewrite Hc. now apply IH.
Qed.

Lemma TrimLeft_keep (cutset m : string) :
  starts_in cutset m = false -> strings.TrimLeft m cutset = m.
Proof. destruct m as [|c m]; simpl; [reflexivity|]. now intros ->. Qed.

(** Trimming on the right drops a suffix made of cutset bytes and stops
    at the last byte outside the cutset. *)
Lemma TrimRight_app_all (cutset s r : string) :
  all_in cutset r = true ->
  strings.TrimRight (s ++ r) cutset = strings.TrimRight s cutset.
Proof.
  intros Hr. induction s as [|c s IH].
  - simpl. induction r as [|d r IHr]; [reflexivity|].
    simpl in *. apply andb_true_iff in Hr as [Hd Hr].
    rewrite (IHr Hr). now rewrite Hd.
  - simpl. now rewrite IH.
Qed.

Lemma TrimRight_keep (cutset m : string) :
  ends_in cutset m = false -> strings.TrimRight m cutset = m.
Proof.
  induction m as [|c m IH]; intros H; [reflexivity|].
  simpl in *. destruct m as [|d m].
  - simpl. now rewrite H.
  - rewrite (IH H). reflexivity.
Qed.

Lemma ends_in_app (cutset l m : string) :
  m <> "" -> ends_in cutset (l ++ m) = ends_in cutset m.
Proof.
  intros Hm. induction l as [|c l IH]; [reflexivity|].
  simpl. rewrite IH. destruct (l ++ m)%string eqn:E; [|reflexivity].
  destruct l; simpl in E; [congruence | discriminate].
Qed.

(** [strings.Trim] gives back what stands between a run of cutset bytes
    and another, when that neither begins nor ends with a cutset byte. *)
Lemma Trim_between (cutset l m r : string) :
  all_in cutset l = true -> all_in cutset r = true ->
  starts_in cutset m = false -> ends_in cutset m = false ->
  strings.Trim (l ++ m ++ r) cutset = m.
Proof.
  intros Hl Hr Hs He. unfold strings.Trim.
  rewrite <- app_assoc_s, TrimRight_app_all by assumption.
  destruct m as [|c m].
  - rewrite app_empty_r.
    rewrite <- (app_empty_r l) at 1.
    change (l ++ "")%string with ("" ++ l ++ "")%string.
    rewrite app_empty_r.
    change l with ("" ++ l)%string at 1.
    rewrite TrimRight_app_all by assumption. reflexivity.
  - rewrite TrimRight_keep
      by (rewrite ends_in_app by discriminate; exact He).
    rewrite TrimLeft_all_app by assumption. now apply TrimLeft_keep.
Qed.

(** X10. For a pointer record whose subject is an underscore, a service
    name, a dot, an underscore, a protocol name and [.local], followed by
    any number of dots, the two names holding no dot and neither
    beginning nor ending with an underscore, the service label is the
    service name and the protocol label is the protocol name. *)
Theorem X10_labels_of_a_service_type_subject
    (acc : Acc) (h : RR_Header) (ptr s p dots : string) :
  free_of "." s = true -> free_of "." p = true ->
  starts_in "_" s = false -> ends_in "_" s = false ->
  starts_in "_" p = false -> ends_in "_" p = false ->
  all_in "." dots = true ->
  Name h = ("_" ++ s ++ "._" ++ p ++ ".local" ++ dots)%string ->
  service (assemble_RR IP_String acc (PTR h ptr)) = s /\
  proto (assemble_RR IP_String acc (PTR h ptr)) = p.
Proof.
  intros Hs Hp Hs1 Hs2 Hp1 Hp2 Hd Hn.
  assert (Ht : strings.Trim (Name h) "."
               = (("_" ++ s) ++ "." ++ ("_" ++ p) ++ "." ++ "local")%string).
  { rewrite Hn.
    replace ("_" ++ s ++ "._" ++ p ++ ".local" ++ dots)%string
      with ("" ++ (("_" ++ s) ++ "." ++ ("_" ++ p) ++ "." ++ "local")
               ++ dots)%string
      by (simpl; f_equal; rewrite !app_assoc_s; simpl;
          now rewrite !app_assoc_s).
    apply Trim_between; try assumption; try reflexivity.
    replace (("_" ++ s) ++ "." ++ ("_" ++ p) ++ "." ++ "local")%string
      with ((("_" ++ s) ++ "." ++ ("_" ++ p) ++ ".") ++ "local")%string
      by (now rewrite !app_assoc_s).
    now rewrite ends_in_app by discriminate. }
  assert (H3 : three_local (Name h) ("_" ++ s) ("_" ++ p)).
  { split; [simpl; exact Hs|]. split; [simpl; exact Hp | exact Ht]. }
  destruct (proj1 (PTR_labels IP_String acc h ptr) _ _ H3) as [-> ->].
  split.
  - replace ("_" ++ s)%string with ("_" ++ s ++ "")%string
      by (now rewrite app_empty_r).
    now apply Trim_between.
  - replace ("_" ++ p)%string with ("_" ++ p ++ "")%string
      by (now rewrite app_empty_r).
    now apply Trim_between.
Qed.

(** An error [run] returns is the error of [net.ListenPacket], of a
    receive, of the encoder or of a write. *)
Lemma run_error_origin (lp : option error) (inputs : list recv)
    (st : State) (e : error) :
  run' lp inputs = (Err e, st) ->
  lp = Some e \/
  (RecvErr e ∈ inputs /\ Is_ErrClosed e = false) \/
  (exists m, Pack m = Err e) \/
  (exists k buf, WriteTo_err k buf = Some e).
Proof.
  unfold run, query. destruct lp as [e0|].
  - intros [= <- _]. now left.
  - unfold bind. simpl. destruct (Pack _) as [buf|e0] eqn:EP; simpl.
    + destruct (WriteTo_err _ _) as [e0|] eqn:EW; simpl.
      * intros [= <- _]. right. right. right. eauto.
      * intros H. right.
        now apply loop_error_origin in H.
    + intros [= <- _]. right. right. left. eauto.
Qed.

(** [run] returns [nil] only at a receive that failed with
    [net.ErrClosed]. *)
Lemma run_Returned_nil (lp : option error) (inputs : list recv)
    (st : State) :
  run' lp inputs = (Ok Returned_nil, st) ->
  lp = None /\
  exists pre err rest,
    inputs = pre ++ RecvErr err :: rest /\
    Is_ErrClosed err = true /\
    forallb is_Datagram pre = true.
Proof.
  unfold run, query. destruct lp as [e0|]; [discriminate|].
  unfold bind. simpl. destruct (Pack _) as [buf|e0]; [|discriminate].
  simpl. destruct (WriteTo_err _ _); [discriminate|]. simpl.
  intros H. split; [reflexivity|].
  apply loop_Returned_nil in H as (pre & err & rest & E & Hc & Hpre).
  exists pre, err, rest. repeat split; try assumption.
  now apply loop_Waiting in Hpre.
Qed.


(** X12. In a run whose encoder and writes do not fail and whose
    receives all give datagrams, the follow-up queries are written in the
    order in which their names first occur as targets of pointer-type
    answers in the enumeration responses. *)
Theorem X12_followups_in_order_of_first_occurrence (inputs : list recv) :
  Pack_never_fails Pack -> WriteTo_never_fails WriteTo_err ->
  forallb is_Datagram inputs = true ->
  query_names (tl (sent (run' None inputs).2))
  = fresh_names ∅ (enum_targets Unpack (Id_draw 0) inputs).
Proof.
  intros HP HW Hd.
  destruct (run_followups Pack Unpack IP_String Id_draw WriteTo_err
              inputs HP HW Hd) as (st & E & Hq & _).
  rewrite E. exact Hq.
Qed.

End MoreProperties.

(** ** The further properties on the example run *)

Local Abbreviation ex_iteration :=
  (iteration ex_Pack ex_Unpack ex_IP_String ex_Id_draw ex_WriteTo_ok).
Local Abbreviation ex_loop :=
  (loop ex_Pack ex_Unpack ex_IP_String ex_Id_draw ex_WriteTo_ok).
Local Abbreviation ex_run :=
  (run ex_Pack ex_Unpack ex_IP_String ex_Id_draw None ex_WriteTo_ok).
Local Abbreviation ex_main :=
  (main ex_Pack ex_Unpack ex_IP_String ex_Id_draw None ex_WriteTo_ok).

Lemma X1_witness :
  let p := {| pkt_msg := question_Msg 7 "_services._dns-sd._udp.local.";
              pkt_bytes := list_byte_of_string
                             "_services._dns-sd._udp.local.";
              pkt_dest := mdnsAddr4 |} in
  head (sent (ex_run ex_inputs).2) = Some p /\
  query_names [p] = ["_services._dns-sd._udp.local."].
Proof.
  cbv zeta.
  assert (H : head (sent (ex_run ex_inputs).2)
              = Some {| pkt_msg := question_Msg 7
                                     "_services._dns-sd._udp.local.";
                        pkt_bytes := list_byte_of_string
                                       "_services._dns-sd._udp.local.";
                        pkt_dest := mdnsAddr4 |})
    by (vm_compute; reflexivity).
  split; [exact H|].
  exact (proj1 (proj2 (X1_every_datagram_is_a_unicast_PTR_query
                         ex_Pack ex_Unpack ex_IP_String ex_Id_draw
                         ex_WriteTo_ok None ex_inputs)) _ H).
Defined.

Lemma X2_witness :
  let p := {| pkt_msg := question_Msg 9 "_ipp._tcp.local.";
              pkt_bytes := list_byte_of_string "_ipp._tcp.local.";
              pkt_dest := mdnsAddr4 |} in
  sent (ex_run ex_inputs).2 !! 2 = Some p /\
  Id (pkt_msg p) = ex_Id_draw 2.
Proof.
  cbv zeta.
  assert (H : sent (ex_run ex_inputs).2 !! 2
              = Some {| pkt_msg := question_Msg 9 "_ipp._tcp.local.";
                        pkt_bytes := list_byte_of_string "_ipp._tcp.local.";
                        pkt_dest := mdnsAddr4 |})
    by (vm_compute; reflexivity).
  split; [exact H|].
  exact (X2_identifiers_in_draw_order
           ex_Pack ex_Unpack ex_IP_String ex_Id_draw ex_WriteTo_ok
           None ex_inputs 2 _ H).
Defined.

Lemma X4_witness :
  let inputs := [Datagram [Byte.x02] ex_addr; RecvErr ex_closed_error;
                 Datagram [Byte.x03] ex_addr] in
  ex_loop 7 inputs init_State = (Ok Returned_nil, ex_State_printer) /\
  (exists pre err rest,
      inputs = pre ++ RecvErr err :: rest /\
      Is_ErrClosed err = true /\
      forallb is_Datagram pre = true /\
      ex_loop 7 pre init_State = (Ok Waiting, ex_State_printer)) /\
  ex_loop 7 [Datagram [Byte.x02] ex_addr] init_State
  = (Ok Waiting, ex_State_printer) /\
  forallb is_Datagram [Datagram [Byte.x02] ex_addr] = true.
Proof.
  cbv zeta.
  assert (H1 : ex_loop 7 [Datagram [Byte.x02] ex_addr;
                          RecvErr ex_closed_error;
                          Datagram [Byte.x03] ex_addr] init_State
               = (Ok Returned_nil, ex_State_printer))
    by (vm_compute; reflexivity).
  assert (H2 : ex_loop 7 [Datagram [Byte.x02] ex_addr] init_State
               = (Ok Waiting, ex_State_printer))
    by (vm_compute; reflexivity).
  split; [exact H1|]. split.
  - exact (proj1 (X4_loop_ends_only_at_a_closed_receive
                    ex_Pack ex_Unpack ex_IP_String ex_Id_draw ex_WriteTo_ok
                    7%N [Datagram [Byte.x02] ex_addr;
                         RecvErr ex_closed_error;
                         Datagram [Byte.x03] ex_addr]
                    init_State ex_State_printer) H1).
  - split; [exact H2|].
    exact (proj2 (X4_loop_ends_only_at_a_closed_receive
                    ex_Pack ex_Unpack ex_IP_String ex_Id_draw ex_WriteTo_ok
                    7%N [Datagram [Byte.x02] ex_addr]
                    init_State ex_State_printer) H2).
Defined.

Lemma X5_witness :
  let inputs := [Datagram [Byte.x02] ex_addr; RecvErr ex_io_error] in
  ex_loop 7 inputs init_State = (Err ex_io_error, ex_State_printer) /\
  ((RecvErr ex_io_error ∈ inputs /\ Is_ErrClosed ex_io_error = false) \/
   (exists m, ex_Pack m = Err ex_io_error) \/
   (exists k buf, ex_WriteTo_ok k buf = Some ex_io_error)).
Proof.
  cbv zeta.
  assert (H : ex_loop 7 [Datagram [Byte.x02] ex_addr; RecvErr ex_io_error]
                init_State = (Err ex_io_error, ex_State_printer))
    by (vm_compute; reflexivity).
  split; [exact H|].
  exact (X5_errors_returned_come_from_receive_encode_or_write
           ex_Pack ex_Unpack ex_IP_String ex_Id_draw ex_WriteTo_ok
           7%N [Datagram [Byte.x02] ex_addr; RecvErr ex_io_error]
           init_State ex_State_printer ex_io_error H).
Defined.

Lemma X6_witness :
  let inputs := [Datagram [Byte.x02] ex_addr; Datagram [Byte.x00] ex_addr;
                 Datagram [Byte.x01] ex_addr; Datagram [Byte.x03] ex_addr] in
  ex_loop 7 inputs init_State = (Ok Waiting, ex_State_mixed) /\
  stdout ex_State_mixed
  = stdout init_State ++ service_lines ex_Unpack ex_IP_String 7 inputs /\
  logged ex_State_mixed = logged init_State ++ bad_lines ex_Unpack inputs /\
  service_lines ex_Unpack ex_IP_String 7 inputs
  = [line_of ex_IP_String (ex_printer_msg 9);
     line_of ex_IP_String (ex_two_PTR_msg 9)] /\
  bad_lines ex_Unpack inputs
  = ["bad response from 192.168.1.5:5353: dns: overflow unpacking uint16"].
Proof.
  cbv zeta.
  assert (H : ex_loop 7 [Datagram [Byte.x02] ex_addr;
                         Datagram [Byte.x00] ex_addr;
                         Datagram [Byte.x01] ex_addr;
                         Datagram [Byte.x03] ex_addr] init_State
              = (Ok Waiting, ex_State_mixed))
    by (vm_compute; reflexivity).
  destruct (proj1 (X6_lines_printed_and_logged
                     ex_Pack ex_Unpack ex_IP_String ex_Id_draw ex_WriteTo_ok
                     7%N [Datagram [Byte.x02] ex_addr;
                          Datagram [Byte.x00] ex_addr;
                          Datagram [Byte.x01] ex_addr;
                          Datagram [Byte.x03] ex_addr]
                     init_State ex_State_mixed) H) as [Hout Hlog].
  split; [exact H|]. split; [exact Hout|]. split; [exact Hlog|].
  split; vm_compute; reflexivity.
Defined.

Lemma X7_witness :
  ex_run ex_inputs = (Ok Waiting, ex_State_run) /\
  ("_ipp._tcp.local." ∈ services ex_State_run <->
   "_ipp._tcp.local." ∈ query_names (tl (sent ex_State_run))).
Proof.
  assert (H : ex_run ex_inputs = (Ok Waiting, ex_State_run))
    by (vm_compute; reflexivity).
  split; [exact H|].
  exact (X7_services_are_the_names_asked_for
           ex_Pack ex_Unpack ex_IP_String ex_Id_draw ex_WriteTo_ok
           None ex_inputs Waiting ex_State_run "_ipp._tcp.local." H).
Defined.

Lemma X8_witness :
  ex_Unpack [Byte.x01] = Ok (ex_enum_msg 7) /\
  Id (ex_enum_msg 7) = 7%N /\
  ex_iteration 7 (Datagram [Byte.x01] ex_addr) init_State
  = (Ok Continue, ex_State_enum) /\
  ex_loop 7 [Datagram [Byte.x02] ex_addr] ex_State_enum
  = (Ok Waiting, ex_State_enum_printer) /\
  ex_iteration 7 (Datagram [Byte.x01] "192.168.1.9:5353")
    ex_State_enum_printer
  = (Ok Continue, ex_State_enum_printer).
Proof.
  assert (H1 : ex_iteration 7 (Datagram [Byte.x01] ex_addr) init_State
               = (Ok Continue, ex_State_enum))
    by (vm_compute; reflexivity).
  assert (H2 : ex_loop 7 [Datagram [Byte.x02] ex_addr] ex_State_enum
               = (Ok Waiting, ex_State_enum_printer))
    by (vm_compute; reflexivity).
  split; [reflexivity|]. split; [reflexivity|].
  split; [exact H1|]. split; [exact H2|].
  exact (X8_enumeration_response_again_changes_nothing
           ex_Pack ex_Unpack ex_IP_String ex_Id_draw ex_WriteTo_ok
           7%N [Byte.x01] ex_addr "192.168.1.9:5353" (ex_enum_msg 7)
           [Datagram [Byte.x02] ex_addr] init_State ex_State_enum
           ex_State_enum_printer Waiting eq_refl eq_refl H1 H2).
Defined.

Lemma X10_witness :
  let h := hdr "_http._tcp.local." 12 in
  Name h = ("_" ++ "http" ++ "._" ++ "tcp" ++ ".local" ++ ".")%string /\
  service (assemble_RR ex_IP_String zero_Acc (PTR h "web._http._tcp.local."))
  = "http" /\
  proto (assemble_RR ex_IP_String zero_Acc (PTR h "web._http._tcp.local."))
  = "tcp".
Proof.
  cbv zeta. split; [reflexivity|].
  exact (X10_labels_of_a_service_type_subject ex_IP_String zero_Acc
           (hdr "_http._tcp.local." 12) "web._http._tcp.local."
           "http" "tcp" "." eq_refl eq_refl eq_refl eq_refl eq_refl eq_refl
           eq_refl eq_refl).
Defined.


Lemma X12_witness :
  Pack_never_fails ex_Pack /\
  WriteTo_never_fails ex_WriteTo_ok /\
  forallb is_Datagram ex_inputs = true /\
  query_names (tl (sent (ex_run ex_inputs).2))
  = fresh_names ∅ (enum_targets ex_Unpack (ex_Id_draw 0) ex_inputs) /\
  fresh_names ∅ (enum_targets ex_Unpack (ex_Id_draw 0) ex_inputs)
  = ["_http._tcp.local."; "_ipp._tcp.local."].
Proof.
  assert (HP : Pack_never_fails ex_Pack) by (intros m; eexists; reflexivity).
  assert (HW : WriteTo_never_fails ex_WriteTo_ok) by (intros k b; reflexivity).
  assert (Hd : forallb is_Datagram ex_inputs = true) by reflexivity.
  split; [exact HP|]. split; [exact HW|]. split; [exact Hd|].
  split; [|vm_compute; reflexivity].
  exact (X12_followups_in_order_of_first_occurrence
           ex_Pack ex_Unpack ex_IP_String ex_Id_draw ex_WriteTo_ok
           ex_inputs HP HW Hd).
Defined.
